(** * algodiff: forward-mode automatic differentiation over dual numbers

    A shallow embedding of the dual-number class
    ([include/algodiff/dual_number.hpp]), of the elementary functions
    ([src/dual_number_ops.cpp]) and of the seeding engine
    ([include/algodiff/forward_mode.hpp]).

    A C++ [double] is a primitive binary64 float, so that every arithmetic
    operator, [std::abs], [std::sqrt] and every comparison has its IEEE-754
    meaning, NaN and the infinities included. *)

From Stdlib Require Import Floats ZArith Lia.
From stdpp Require Import base list.

Local Open Scope float_scope.

(** ** IEEE-754 constants and predicates *)

Module IEEE.

(** [std::numeric_limits<double>::epsilon()] *)
Definition epsilon : float := 0x1p-52.

Definition nan_or_inf (x : float) : bool := is_nan x || is_infinity x.

(** A finite float that is a whole number: none of the bits of the mantissa
    below the binary point is set. *)
Definition is_integer (y : float) : bool :=
  match Prim2SF y with
  | S754_zero _ => true
  | S754_finite _ m e =>
      (0 <=? e)%Z || (Z.land (Zpos m) (Z.ones (- e)) =? 0)%Z
  | _ => false
  end.

End IEEE.

(** ** The [DualNumber] class ([dual_number.hpp]) *)

Module Dual.

(** [m_primal] and [m_dual], read through the const accessors [primal()] and
    [dual()]. *)
Record DualNumber : Type := mkDual { primal : float; dual : float }.

(** The three constructors: [DualNumber()], [DualNumber(primal)] and
    [DualNumber(primal, dual)]; the member initialisers are [0.0]. *)
Definition DualNumber0 : DualNumber := mkDual 0 0.
Definition DualNumber1 (p : float) : DualNumber := mkDual p 0.
Definition DualNumber2 (p d : float) : DualNumber := mkDual p d.

#[export] Instance DualNumber_inhabited : Inhabited DualNumber :=
  populate DualNumber0.
#[export] Instance float_inhabited : Inhabited float := populate 0.

(** Writes through the mutable accessors: [primal() = v] and [dual() = v]. *)
Definition set_primal (v : float) (x : DualNumber) : DualNumber :=
  mkDual v (dual x).
Definition set_dual (v : float) (x : DualNumber) : DualNumber :=
  mkDual (primal x) v.

(** Objects live in a store; [this] and every reference parameter are
    addresses, so that an operand that is the object itself ([a *= a],
    [a == a]) is one cell read and written through two names. *)
Definition addr := nat.
Definition store := addr -> DualNumber.

Definition update (a : addr) (x : DualNumber) (s : store) : store :=
  fun b => if Nat.eqb b a then x else s b.

Definition write_primal (this : addr) (v : float) (s : store) : store :=
  update this (set_primal v (s this)) s.
Definition write_dual (this : addr) (v : float) (s : store) : store :=
  update this (set_dual v (s this)) s.

(** *** Comparison *)

(** [operator==]: the identity test [this == &other] comes first. *)
Definition op_eq (this other : addr) (s : store) : bool :=
  Nat.eqb this other
  || ((abs (primal (s this) - primal (s other)) <? IEEE.epsilon)
      && (abs (dual (s this) - dual (s other)) <? IEEE.epsilon)).

(** [operator!=] is [!( *this == other)]. *)
Definition op_ne (this other : addr) (s : store) : bool :=
  negb (op_eq this other s).

(** From the specification: two dual numbers are equal when both components
    differ by less than machine epsilon. *)
Definition close (a b : DualNumber) : bool :=
  (abs (primal a - primal b) <? IEEE.epsilon)
  && (abs (dual a - dual b) <? IEEE.epsilon).

(** *** Compound assignments (member functions, [*this] is updated in place) *)

Definition op_add_assign (this other : addr) (s : store) : store :=
  let s := write_primal this (primal (s this) + primal (s other)) s in
  let s := write_dual this (dual (s this) + dual (s other)) s in
  s.

Definition op_add_assign_scalar (this : addr) (n : float) (s : store) : store :=
  write_primal this (primal (s this) + n) s.

Definition op_sub_assign (this other : addr) (s : store) : store :=
  let s := write_primal this (primal (s this) - primal (s other)) s in
  let s := write_dual this (dual (s this) - dual (s other)) s in
  s.

Definition op_sub_assign_scalar (this : addr) (n : float) (s : store) : store :=
  write_primal this (primal (s this) - n) s.

Definition op_mul_assign (this other : addr) (s : store) : store :=
  let primal_comp := primal (s this) in
  let dual_comp := dual (s this) in
  let s := write_primal this (primal_comp * primal (s other)) s in
  let s := write_dual this
             (primal_comp * dual (s other) + dual_comp * primal (s other)) s in
  s.

Definition op_mul_assign_scalar (this : addr) (scalar : float) (s : store)
  : store :=
  let s := write_primal this (scalar * primal (s this)) s in
  let s := write_dual this (scalar * dual (s this)) s in
  s.

Definition op_div_assign (this other : addr) (s : store) : store :=
  let primal_comp := primal (s this) in
  let dual_comp := dual (s this) in
  let s := write_primal this (primal_comp / primal (s other)) s in
  let s := write_dual this
             ((dual_comp * primal (s other) - primal_comp * dual (s other))
              / (primal (s other) * primal (s other))) s in
  s.

Definition op_div_assign_scalar (this : addr) (scalar : float) (s : store)
  : store :=
  let s := write_primal this (primal (s this) / scalar) s in
  let s := write_dual this (dual (s this) / scalar) s in
  s.

(** *** Free operators

    The first operand is taken by value: the parameter is a fresh object, at
    address [by_value] of the callee's frame, and can never be the object the
    second operand refers to, which the frame shows at address [by_ref]. *)

Definition by_value : addr := 0%nat.
Definition by_ref : addr := 1%nat.

Definition frame (left right : DualNumber) : store :=
  fun a => match a with O => left | _ => right end.

Definition frame1 (num : DualNumber) : store := fun _ => num.

Definition op_neg (num : DualNumber) : DualNumber :=
  mkDual (- primal num) (- dual num).

Definition op_add (left right : DualNumber) : DualNumber :=
  op_add_assign by_value by_ref (frame left right) by_value.
Definition op_add_scalar (num : DualNumber) (n : float) : DualNumber :=
  op_add_assign_scalar by_value n (frame1 num) by_value.
Definition op_scalar_add (n : float) (num : DualNumber) : DualNumber :=
  op_add_assign_scalar by_value n (frame1 num) by_value.

Definition op_sub (left right : DualNumber) : DualNumber :=
  op_sub_assign by_value by_ref (frame left right) by_value.
Definition op_sub_scalar (num : DualNumber) (n : float) : DualNumber :=
  op_sub_assign_scalar by_value n (frame1 num) by_value.
Definition op_scalar_sub (n : float) (num : DualNumber) : DualNumber :=
  let num := set_primal (n - primal num) num in
  let num := set_dual (- dual num) num in
  num.

Definition op_mul (left right : DualNumber) : DualNumber :=
  op_mul_assign by_value by_ref (frame left right) by_value.
Definition op_scalar_mul (scalar : float) (num : DualNumber) : DualNumber :=
  op_mul_assign_scalar by_value scalar (frame1 num) by_value.
Definition op_mul_scalar (num : DualNumber) (scalar : float) : DualNumber :=
  op_mul_assign_scalar by_value scalar (frame1 num) by_value.

Definition op_div (left right : DualNumber) : DualNumber :=
  op_div_assign by_value by_ref (frame left right) by_value.
Definition op_div_scalar (num : DualNumber) (scalar : float) : DualNumber :=
  op_div_assign_scalar by_value scalar (frame1 num) by_value.

(** From the specification: the product and the quotient of two dual numbers,
    [(p1 * p2, p1 * d2 + d1 * p2)] and
    [(p1 / p2, (d1 * p2 - p1 * d2) / (p2 * p2))]. *)
Definition product_rule (a b : DualNumber) : DualNumber :=
  mkDual (primal a * primal b) (primal a * dual b + dual a * primal b).

Definition quotient_rule (a b : DualNumber) : DualNumber :=
  mkDual (primal a / primal b)
         ((dual a * primal b - primal a * dual b) / (primal b * primal b)).

End Dual.

(** ** The elementary functions ([dual_number_ops.hpp], [dual_number_ops.cpp]) *)

Module Ops.
Import Dual.

(** The functions of [<cmath>] that the library calls and that IEEE-754 does
    not define bit for bit.  [std::abs] and [std::sqrt] are the primitive
    float operations. *)
Record Libm : Type := mkLibm {
  std_pow : float -> float -> float;
  std_exp : float -> float;
  std_log : float -> float;
  std_sin : float -> float;
  std_cos : float -> float;
  std_tan : float -> float;
  std_asin : float -> float;
  std_acos : float -> float;
  std_atan : float -> float;
  std_sinh : float -> float;
  std_cosh : float -> float;
  std_tanh : float -> float;
  std_asinh : float -> float;
  std_acosh : float -> float;
  std_atanh : float -> float
}.

(** What the C standard (Annex F) promises of these functions outside their
    real domain: a NaN for a domain error, an infinity for a pole error. *)
Record AnnexF (m : Libm) : Prop := mkAnnexF {
  log_negative : forall x, (x <? 0) = true -> is_nan (std_log m x) = true;
  log_zero : forall x, (x =? 0) = true -> is_infinity (std_log m x) = true;
  asin_domain :
    forall x, (1 <? PrimFloat.abs x) = true -> is_nan (std_asin m x) = true;
  acos_domain :
    forall x, (1 <? PrimFloat.abs x) = true -> is_nan (std_acos m x) = true;
  acosh_domain : forall x, (x <? 1) = true -> is_nan (std_acosh m x) = true;
  atanh_domain :
    forall x, (1 <? PrimFloat.abs x) = true -> is_nan (std_atanh m x) = true;
  atanh_pole :
    forall x, (PrimFloat.abs x =? 1) = true ->
              is_infinity (std_atanh m x) = true;
  pow_pole :
    forall x y, (x =? 0) = true -> (y <? 0) = true ->
                is_infinity (std_pow m x y) = true;
  pow_domain :
    forall x y, (x <? 0) = true -> is_finite x = true ->
                is_finite y = true -> IEEE.is_integer y = false ->
                is_nan (std_pow m x y) = true
}.

Definition real (num : DualNumber) : float := primal num.
Definition imag (num : DualNumber) : float := dual num.

Definition conj (num : DualNumber) : DualNumber :=
  mkDual (primal num) (- dual num).
Definition abs2 (num : DualNumber) : DualNumber := op_mul num num.
Definition norm (num : DualNumber) : DualNumber := op_mul num num.

Definition abs (num : DualNumber) : DualNumber :=
  mkDual (PrimFloat.abs (primal num))
         (dual num * primal num / PrimFloat.abs (primal num)).

Section Elementary.
Variable m : Libm.

Definition pow (num : DualNumber) (exponent : float) : DualNumber :=
  mkDual (std_pow m (primal num) exponent)
         (exponent * dual num * std_pow m (primal num) (exponent - 1.0)).

Definition pow_dual (num exponent : DualNumber) : DualNumber :=
  mkDual (std_pow m (primal num) (primal exponent))
         (std_pow m (primal num) (primal exponent)
          * (dual exponent * std_log m (primal num)
             + dual num * primal exponent / primal num)).

Definition inverse (num : DualNumber) : DualNumber := pow num (-1.0).

(** [operator/(const double scalar, DualNumber num)], declared with the
    elementary functions: [scalar * inverse(num)]. *)
Definition op_scalar_div (scalar : float) (num : DualNumber) : DualNumber :=
  op_scalar_mul scalar (inverse num).

Definition sqrt (num : DualNumber) : DualNumber :=
  let exponent := 0.5 in
  pow num exponent.

Definition exp (num : DualNumber) : DualNumber :=
  mkDual (std_exp m (primal num)) (dual num * std_exp m (primal num)).

Definition exp2 (num : DualNumber) : DualNumber :=
  exp (op_scalar_mul (std_log m 2.0) num).

Definition log (num : DualNumber) : DualNumber :=
  mkDual (std_log m (primal num)) (dual num / primal num).

Definition log2 (num : DualNumber) : DualNumber :=
  op_div_scalar (log num) (std_log m 2.0).

Definition log10 (num : DualNumber) : DualNumber :=
  op_div_scalar (log num) (std_log m 10.0).

Definition log_base (num : DualNumber) (base : float) : DualNumber :=
  op_div_scalar (log num) (std_log m base).

Definition sin (num : DualNumber) : DualNumber :=
  mkDual (std_sin m (primal num)) (std_cos m (primal num) * dual num).

Definition cos (num : DualNumber) : DualNumber :=
  mkDual (std_cos m (primal num)) ((- std_sin m (primal num)) * dual num).

Definition tan (num : DualNumber) : DualNumber :=
  let cos_primal := std_cos m (primal num) in
  mkDual (std_tan m (primal num)) (dual num / (cos_primal * cos_primal)).

Definition asin (num : DualNumber) : DualNumber :=
  mkDual (std_asin m (primal num))
         (dual num / PrimFloat.sqrt (1.0 - primal num * primal num)).

Definition acos (num : DualNumber) : DualNumber :=
  mkDual (std_acos m (primal num))
         ((- dual num) / PrimFloat.sqrt (1.0 - primal num * primal num)).

Definition atan (num : DualNumber) : DualNumber :=
  mkDual (std_atan m (primal num))
         (dual num / (1.0 + primal num * primal num)).

Definition sinh (num : DualNumber) : DualNumber :=
  mkDual (std_sinh m (primal num)) (std_cosh m (primal num) * dual num).

Definition cosh (num : DualNumber) : DualNumber :=
  mkDual (std_cosh m (primal num)) (std_sinh m (primal num) * dual num).

Definition tanh (num : DualNumber) : DualNumber :=
  let cosh_primal := std_cosh m (primal num) in
  mkDual (std_tanh m (primal num)) (dual num / (cosh_primal * cosh_primal)).

Definition asinh (num : DualNumber) : DualNumber :=
  mkDual (std_asinh m (primal num))
         (dual num / PrimFloat.sqrt (primal num * primal num + 1.0)).

Definition acosh (num : DualNumber) : DualNumber :=
  mkDual (std_acosh m (primal num))
         (dual num / PrimFloat.sqrt (primal num * primal num - 1.0)).

Definition atanh (num : DualNumber) : DualNumber :=
  mkDual (std_atanh m (primal num))
         (dual num / (1.0 - primal num * primal num)).

End Elementary.

End Ops.

(** ** The seeding engine ([forward_mode.hpp]) *)

Module Forward.
Import Dual.

(** *** Instrumented computations

    The engine receives the user's function [f] as a black box.  A
    computation threads the record of the arguments [f] was invoked on, one
    entry per invocation in order, and stops with [None] where the C++ reads
    a vector out of its range. *)

Definition Counted (X A : Type) : Type := list X -> option (A * list X).

Section Counted.
Context {X : Type}.

Definition ret {A : Type} (a : A) : Counted X A := fun log => Some (a, log).

Definition bind {A B : Type} (c : Counted X A) (k : A -> Counted X B)
  : Counted X B :=
  fun log => match c log with
             | Some (a, log') => k a log'
             | None => None
             end.

(** One invocation [f(x)] of the user's function. *)
Definition call {Y : Type} (f : X -> Y) (x : X) : Counted X Y :=
  fun log => Some (f x, log ++ [x]).

Definition out_of_range {A : Type} : Counted X A := fun _ => None.

(** [v[j]] on a vector returned by the user's function. *)
Definition at_index {A : Type} (v : list A) (j : nat) : Counted X A :=
  match v !! j with
  | Some a => ret a
  | None => out_of_range
  end.

(** [for (int i = first; i < first + count; ++i) s = body(i, s);] *)
Fixpoint for_range {S : Type} (first count : nat)
    (body : nat -> S -> Counted X S) (s : S) : Counted X S :=
  match count with
  | O => ret s
  | Datatypes.S count' =>
      bind (body first s) (for_range (Datatypes.S first) count' body)
  end.

(** [std::transform(first, last, std::back_inserter(out), op)] for an [op]
    that invokes the user's function. *)
Fixpoint transform {A B : Type} (op : A -> Counted X B) (l : list A)
  : Counted X (list B) :=
  match l with
  | [] => ret []
  | a :: l' =>
      bind (op a) (fun b => bind (transform op l') (fun out => ret (b :: out)))
  end.

End Counted.

Notation "x <- c ;; k" := (bind c (fun x => k))
  (at level 100, c at next level, right associativity).

(** [std::transform(first, last, d_first, op)] into storage that exists. *)
Definition transform_into {A B : Type} (src : list A) (op : A -> B)
    (dst : list B) : list B :=
  (op <$> src) ++ drop (length src) dst.

(** *** Scalar functions *)

Definition evaluate (f : DualNumber -> DualNumber) (u : float)
  : Counted DualNumber DualNumber :=
  call f (DualNumber2 u 1.0).

Definition derivative (f : DualNumber -> DualNumber) (u : float)
  : Counted DualNumber float :=
  r <- evaluate f u ;; ret (dual r).

(** *** Seeding a shared vector

    [dual_numbers[i].dual() = 1.0] and [dual_numbers[i].dual() = 0.0]: element
    [i] of the one vector every invocation receives is updated in place. *)

Definition seed (i : nat) (dual_numbers : list DualNumber) : list DualNumber :=
  alter (set_dual 1.0) i dual_numbers.

Definition unseed (i : nat) (dual_numbers : list DualNumber)
  : list DualNumber :=
  alter (set_dual 0.0) i dual_numbers.

Abbreviation Input := (list DualNumber).

(** *** [std::vector] overloads *)

Definition evaluate_vector_body (f : Input -> DualNumber) (i : nat)
    (st : Input * list DualNumber) : Counted Input (Input * list DualNumber) :=
  let '(dual_numbers, evaluations) := st in
  let dual_numbers := seed i dual_numbers in
  r <- call f dual_numbers ;;
  let evaluations := evaluations ++ [r] in
  let dual_numbers := unseed i dual_numbers in
  ret (dual_numbers, evaluations).

(** The [std::for_each] of [evaluate], with the vector it leaves behind. *)
Definition evaluate_vector_loop (f : Input -> DualNumber) (u : list float)
  : Counted Input (Input * list DualNumber) :=
  let dual_numbers := (fun x => DualNumber2 x 0.0) <$> u in
  let evaluations := [] in
  for_range 0 (length dual_numbers) (evaluate_vector_body f)
            (dual_numbers, evaluations).

Definition evaluate_vector (f : Input -> DualNumber) (u : list float)
  : Counted Input (list DualNumber) :=
  st <- evaluate_vector_loop f u ;; ret (snd st).

Definition gradient_vector (f : Input -> DualNumber) (u : list float)
  : Counted Input (list float) :=
  evaluations <- evaluate_vector f u ;;
  ret (dual <$> evaluations).

Definition jacobian_vector (f : list (Input -> DualNumber)) (u : list float)
  : Counted Input (list (list float)) :=
  transform (fun func => gradient_vector func u) f.

(** *** Eigen overloads *)

(** [internal::createVector]: storage for [n] elements.  Elements of class
    type are default-constructed; [double] storage holds whatever [content]
    the allocation left there. *)
Definition createVector {T : Type} (n : nat) (content : nat -> T) : list T :=
  content <$> seq 0 n.

(** A dense matrix of doubles with its dimensions; [coeff] lists the rows. *)
Record MatrixXd : Type := mkMatrix {
  rows : nat;
  cols : nat;
  coeff : list (list float)
}.

Definition createMatrix (r c : nat) (content : nat -> nat -> float)
  : MatrixXd :=
  mkMatrix r c ((fun j => content j <$> seq 0 c) <$> seq 0 r).

(** [jac.col(i)[j] = x] *)
Definition set_coeff (j i : nat) (x : float) (jac : MatrixXd) : MatrixXd :=
  mkMatrix (rows jac) (cols jac) (alter (fun row => <[i := x]> row) j (coeff jac)).

(** [jac.row(i) = g] *)
Definition set_row (i : nat) (g : list float) (jac : MatrixXd) : MatrixXd :=
  mkMatrix (rows jac) (cols jac) (<[i := g]> (coeff jac)).

Section Eigen.

(** The content of freshly allocated [double] storage, which the C++ does
    not initialise. *)
Variable uninit_vector : nat -> float.
Variable uninit_matrix : nat -> nat -> float.

Definition evaluate_eigen_body (f : Input -> DualNumber) (i : nat)
    (st : Input * list DualNumber) : Counted Input (Input * list DualNumber) :=
  let '(dual_numbers, evaluations) := st in
  let dual_numbers := seed i dual_numbers in
  r <- call f dual_numbers ;;
  let evaluations := <[i := r]> evaluations in
  let dual_numbers := unseed i dual_numbers in
  ret (dual_numbers, evaluations).

Definition evaluate_eigen_loop (f : Input -> DualNumber) (u : list float)
  : Counted Input (Input * list DualNumber) :=
  let dual_numbers := createVector (length u) (fun _ => DualNumber0) in
  let dual_numbers :=
    transform_into u (fun x => DualNumber2 x 0.0) dual_numbers in
  let evaluations := createVector (length u) (fun _ => DualNumber0) in
  for_range 0 (length dual_numbers) (evaluate_eigen_body f)
            (dual_numbers, evaluations).

Definition evaluate_eigen (f : Input -> DualNumber) (u : list float)
  : Counted Input (list DualNumber) :=
  st <- evaluate_eigen_loop f u ;; ret (snd st).

Definition gradient_eigen (f : Input -> DualNumber) (u : list float)
  : Counted Input (list float) :=
  evaluations <- evaluate_eigen f u ;;
  let grad := createVector (length evaluations) uninit_vector in
  ret (transform_into evaluations dual grad).

(** [jacobian(const std::vector<F> &f, const Eigen::VectorXd &u)] *)
Definition jacobian_eigen (f : list (Input -> DualNumber)) (u : list float)
  : Counted Input MatrixXd :=
  let jacobian := createMatrix (length f) (length u) uninit_matrix in
  for_range 0 (rows jacobian)
    (fun i jacobian =>
       func <- at_index f i ;;
       g <- gradient_eigen func u ;;
       ret (set_row i g jacobian))
    jacobian.

(** The loop over [j] that stores one column. *)
Definition harvest_column (FunctionSize i : nat) (result : list DualNumber)
    (jac : MatrixXd) : Counted Input MatrixXd :=
  for_range 0 FunctionSize
    (fun j jac => x <- at_index result j ;; ret (set_coeff j i (dual x) jac))
    jac.

Definition jacobian_body (FunctionSize : nat) (f : Input -> list DualNumber)
    (i : nat) (st : Input * MatrixXd) : Counted Input (Input * MatrixXd) :=
  let '(dual_numbers, jac) := st in
  let dual_numbers := seed i dual_numbers in
  result <- call f dual_numbers ;;
  jac <- harvest_column FunctionSize i result jac ;;
  let dual_numbers := unseed i dual_numbers in
  ret (dual_numbers, jac).

(** [jacobian<FunctionSize>(F &&f, const Eigen::VectorXd &u)], with the
    vector its loop leaves behind. *)
Definition jacobian_dynamic_loop (FunctionSize : nat)
    (f : Input -> list DualNumber) (u : list float)
  : Counted Input (Input * MatrixXd) :=
  let dual_numbers := createVector (length u) (fun _ => DualNumber0) in
  dual_numbers <-
    for_range 0 (length u)
      (fun i dual_numbers =>
         ret (<[i := DualNumber2 (u !!! i) 0.0]> dual_numbers))
      dual_numbers ;;
  let jac := createMatrix FunctionSize (length u) uninit_matrix in
  for_range 0 (cols jac) (jacobian_body FunctionSize f) (dual_numbers, jac).

Definition jacobian_dynamic (FunctionSize : nat)
    (f : Input -> list DualNumber) (u : list float)
  : Counted Input MatrixXd :=
  st <- jacobian_dynamic_loop FunctionSize f u ;; ret (snd st).

(** [jacobian<FunctionSize>(F &&f, const Eigen::Vector<double, InputSize> &u)];
    the type of [u] fixes its length to [InputSize]. *)
Definition jacobian_fixed_loop (FunctionSize InputSize : nat)
    (f : Input -> list DualNumber) (u : list float)
  : Counted Input (Input * MatrixXd) :=
  let dual_numbers := createVector InputSize (fun _ => DualNumber0) in
  dual_numbers <-
    for_range 0 InputSize
      (fun i dual_numbers =>
         ret (<[i := DualNumber2 (u !!! i) 0.0]> dual_numbers))
      dual_numbers ;;
  let jac := createMatrix FunctionSize InputSize uninit_matrix in
  for_range 0 InputSize (jacobian_body FunctionSize f) (dual_numbers, jac).

Definition jacobian_fixed (FunctionSize InputSize : nat)
    (f : Input -> list DualNumber) (u : list float)
  : Counted Input MatrixXd :=
  st <- jacobian_fixed_loop FunctionSize InputSize f u ;; ret (snd st).

End Eigen.

(** *** From the specification

    The input vector seeded at index [i]: entry [j] is
    [DualNumber(u[j], 1.0)] if [j == i] and [DualNumber(u[j], 0.0)]
    otherwise. *)
Definition seeded (u : list float) (i : nat) : Input :=
  imap (fun j x => DualNumber2 x (if Nat.eqb j i then 1.0 else 0.0)) u.

(** Exactly entry [i] of [v] has dual component [1.0]; every other entry has
    dual component [0.0]. *)
Definition only_seed (i : nat) (v : Input) : Prop :=
  forall j x, v !! j = Some x -> dual x = if Nat.eqb j i then 1.0 else 0.0.

(** Every dual component of [v] is [0.0]. *)
Definition no_seed (v : Input) : Prop :=
  forall j x, v !! j = Some x -> dual x = 0.0.

(** The input with no entry seeded. *)
Definition unseeded (u : list float) : Input :=
  (fun x => DualNumber2 x 0.0) <$> u.

(** The seeded inputs in input order, one per dimension. *)
Definition seeds (u : list float) : list Input :=
  seeded u <$> seq 0 (length u).

(** Entry [i] is the dual component of [f] on the input seeded at [i]. *)
Definition partials (f : Input -> DualNumber) (u : list float) : list float :=
  (fun i => dual (f (seeded u i))) <$> seq 0 (length u).

(** Entry [(j, i)] is the dual component of output [j] of [f] on the input
    seeded at [i]. *)
Definition column_partials (m : nat) (f : Input -> list DualNumber)
    (u : list float) : MatrixXd :=
  createMatrix m (length u) (fun j i => dual (f (seeded u i) !!! j)).

(** Entry [(j, i)] of a matrix, if it has one. *)
Definition entry (jac : MatrixXd) (j i : nat) : option float :=
  match coeff jac !! j with
  | Some row => row !! i
  | None => None
  end.

(** The invariant of a seeding loop, given by its [body] and the state [s0]
    it starts from, whose first component is the shared vector.  Whenever the
    loop has run [i] iterations, no entry of the vector is seeded: so it is
    when the loop completes.  In iteration [i] the statement that opens the
    iteration leaves exactly entry [i] seeded, which makes the vector the
    input seeded at [i], whatever the earlier iterations did; the iteration
    invokes [f] once, on that vector, and ends with the vector as it found
    it. *)
Definition seed_invariant {Acc : Type} (u : list float)
    (body : nat -> Input * Acc -> Counted Input (Input * Acc))
    (s0 : Input * Acc) : Prop :=
  forall i dual_numbers acc log,
    (i <= length u)%nat ->
    for_range 0 i body s0 [] = Some ((dual_numbers, acc), log) ->
    no_seed dual_numbers
    /\ ((i < length u)%nat ->
        only_seed i (seed i dual_numbers)
        /\ seed i dual_numbers = seeded u i
        /\ forall st' log',
             body i (dual_numbers, acc) log = Some (st', log') ->
             log' = log ++ [seed i dual_numbers] /\ fst st' = dual_numbers).

(** A loop function that is a seeding loop with this invariant. *)
Definition seeding_loop {Acc : Type} (u : list float)
    (loop : Counted Input (Input * Acc))
    (body : nat -> Input * Acc -> Counted Input (Input * Acc))
    (s0 : Input * Acc) : Prop :=
  (forall log, loop log = for_range 0 (length u) body s0 log)
  /\ seed_invariant u body s0.

End Forward.

(** ** Functions of the tests and examples, for concrete runs *)

Module Examples.
Import Dual.

(** [x * x * x] *)
Definition cube (x : DualNumber) : DualNumber := op_mul (op_mul x x) x.

(** [vector[0] * vector[0] * vector[1]] *)
Definition square_times (vector : list DualNumber) : DualNumber :=
  op_mul (op_mul (vector !!! 0%nat) (vector !!! 0%nat)) (vector !!! 1%nat).

(** [5.0 * vector[0]] *)
Definition five_times (vector : list DualNumber) : DualNumber :=
  op_scalar_mul 5.0 (vector !!! 0%nat).

(** A function of two outputs and one that returns a single output. *)
Definition two_outputs (vector : list DualNumber) : list DualNumber :=
  [square_times vector; five_times vector].

Definition one_output (vector : list DualNumber) : list DualNumber :=
  [five_times vector].

(** A stand-in for the C library that honours Annex F outside the domains. *)
Definition libm : Ops.Libm :=
  let outside (test : float -> bool) (x : float) : float :=
    if test x then nan else x in
  Ops.mkLibm
    (fun x y => if (x =? 0) && (y <? 0) then infinity
                else if (x <? 0) && negb (IEEE.is_integer y) then nan
                else x * y)
    (fun x => x)
    (fun x => if x =? 0 then neg_infinity else if x <? 0 then nan else x - 1)
    (fun x => x) (fun x => x) (fun x => x)
    (outside (fun x => 1 <? abs x))
    (outside (fun x => 1 <? abs x))
    (fun x => x)
    (fun x => x) (fun x => x) (fun x => x)
    (fun x => x)
    (outside (fun x => x <? 1))
    (fun x => if abs x =? 1 then infinity
              else if 1 <? abs x then nan else x).

End Examples.

(** * Properties *)

(** ** IEEE-754 facts used below *)

Module IEEEFacts.
Import IEEE.

Lemma Prim2SF_zero : Prim2SF 0 = S754_zero false.
Proof. reflexivity. Qed.

Lemma Prim2SF_infinity : Prim2SF infinity = S754_infinity false.
Proof. reflexivity. Qed.

(** [x == 0.0] holds for the two signed zeros and for nothing else. *)
Lemma eqb_zero_inv (x : float) :
  (x =? 0) = true -> exists s, Prim2SF x = S754_zero s.
Proof.
  rewrite FloatAxioms.eqb_spec, Prim2SF_zero.
  destruct (Prim2SF x) as [s|s| |s m e]; cbn;
    try discriminate; try (destruct s; discriminate).
  intros _. now exists s.
Qed.

Lemma eqb_zero_intro (x : float) (s : bool) :
  Prim2SF x = S754_zero s -> (x =? 0) = true.
Proof. intros H. now rewrite FloatAxioms.eqb_spec, H, Prim2SF_zero. Qed.

Lemma is_nan_intro (x : float) : Prim2SF x = S754_nan -> is_nan x = true.
Proof. intros H. unfold is_nan. now rewrite FloatAxioms.eqb_spec, H. Qed.

Lemma is_infinity_intro (x : float) (s : bool) :
  Prim2SF x = S754_infinity s -> is_infinity x = true.
Proof.
  intros H. unfold is_infinity.
  now rewrite FloatAxioms.eqb_spec, FloatAxioms.abs_spec, H, Prim2SF_infinity.
Qed.

Lemma is_nan_inv (x : float) : is_nan x = true -> Prim2SF x = S754_nan.
Proof.
  unfold is_nan. rewrite FloatAxioms.eqb_spec. unfold SFeqb, SFcompare.
  destruct (Prim2SF x) as [s|s| |s m e]; try reflexivity;
    try (destruct s; discriminate).
  change (PosDef.Pos.compare_cont Eq m m) with (Pos.compare m m).
  destruct s; rewrite Z.compare_refl, Pos.compare_refl; discriminate.
Qed.

Lemma nan_or_inf_nan (x : float) : Prim2SF x = S754_nan -> nan_or_inf x = true.
Proof. intros H. unfold nan_or_inf. now rewrite (is_nan_intro _ H). Qed.

Lemma nan_or_inf_inf (x : float) (s : bool) :
  Prim2SF x = S754_infinity s -> nan_or_inf x = true.
Proof.
  intros H. unfold nan_or_inf. rewrite (is_infinity_intro _ _ H).
  apply orb_true_r.
Qed.

(** Anything divided by a zero is an infinity or NaN: the quotient of a
    non-zero finite number or of an infinity is an infinity, that of a zero or
    of NaN is NaN. *)
Lemma div_by_zero (x y : float) :
  (y =? 0) = true -> nan_or_inf (x / y) = true.
Proof.
  intros [s Hy]%eqb_zero_inv.
  pose proof (FloatAxioms.div_spec x y) as H. rewrite Hy in H.
  destruct (Prim2SF x) as [sx| sx | |sx m e]; cbn in H;
    eauto using nan_or_inf_nan, nan_or_inf_inf.
Qed.

Lemma zero_over_zero (x y : float) :
  (x =? 0) = true -> (y =? 0) = true -> is_nan (x / y) = true.
Proof.
  intros [sx Hx]%eqb_zero_inv [sy Hy]%eqb_zero_inv.
  apply is_nan_intro. now rewrite FloatAxioms.div_spec, Hx, Hy.
Qed.

Lemma nan_over (x y : float) : is_nan x = true -> is_nan (x / y) = true.
Proof.
  intros Hx%is_nan_inv. apply is_nan_intro. rewrite FloatAxioms.div_spec, Hx.
  now destruct (Prim2SF y).
Qed.

Lemma mul_zero_zero (x y : float) :
  (x =? 0) = true -> (y =? 0) = true -> (x * y =? 0) = true.
Proof.
  intros [sx Hx]%eqb_zero_inv [sy Hy]%eqb_zero_inv.
  apply (eqb_zero_intro _ (xorb sx sy)). now rewrite FloatAxioms.mul_spec, Hx, Hy.
Qed.

(** A product with a zero factor is a zero, or NaN when the other factor is
    an infinity or NaN. *)
Lemma mul_by_zero (x y : float) :
  (y =? 0) = true -> (x * y =? 0) = true \/ is_nan (x * y) = true.
Proof.
  intros [s Hy]%eqb_zero_inv.
  pose proof (FloatAxioms.mul_spec x y) as H. rewrite Hy in H.
  destruct (Prim2SF x) as [sx| sx | |sx m e]; cbn in H;
    eauto using is_nan_intro, eqb_zero_intro.
Qed.

Lemma abs_zero (x : float) : (x =? 0) = true -> (abs x =? 0) = true.
Proof.
  intros [s Hx]%eqb_zero_inv.
  apply (eqb_zero_intro _ false). now rewrite FloatAxioms.abs_spec, Hx.
Qed.

Lemma is_infinity_inv (x : float) :
  is_infinity x = true -> exists s, Prim2SF x = S754_infinity s.
Proof.
  unfold is_infinity.
  rewrite FloatAxioms.eqb_spec, FloatAxioms.abs_spec, Prim2SF_infinity.
  destruct (Prim2SF x) as [s|s| |s m e]; cbn; try discriminate.
  intros _. now exists s.
Qed.

Lemma nan_or_inf_inv (x : float) :
  nan_or_inf x = true ->
  Prim2SF x = S754_nan \/ exists s, Prim2SF x = S754_infinity s.
Proof.
  unfold nan_or_inf. intros [H|H]%orb_true_iff.
  - left. now apply is_nan_inv.
  - right. now apply is_infinity_inv.
Qed.

(** NaN and the infinities are absorbing for a division: the quotient of one
    of them by anything is one of them. *)
Lemma nan_or_inf_div (x y : float) :
  nan_or_inf x = true -> nan_or_inf (x / y) = true.
Proof.
  intros Hx. pose proof (FloatAxioms.div_spec x y) as H.
  destruct (nan_or_inf_inv x Hx) as [Hn|[s Hi]].
  - rewrite Hn in H. apply nan_or_inf_nan. rewrite H. now destruct (Prim2SF y).
  - rewrite Hi in H.
    destruct (Prim2SF y) as [sy|sy| |sy m e]; cbn in H;
      eauto using nan_or_inf_nan, nan_or_inf_inf.
Qed.

(** A finite number minus itself is a zero. *)
Lemma sub_self_finite (x : float) :
  is_finite x = true -> (abs (x - x) <? epsilon) = true.
Proof.
  intros Hfin.
  assert (exists s, Prim2SF (x - x) = S754_zero s) as [s Hz].
  { rewrite FloatAxioms.sub_spec. unfold is_finite in Hfin.
    destruct (Prim2SF x) as [sx|sx| |sx m e] eqn:E.
    - exists false. now destruct sx.
    - rewrite (is_infinity_intro _ _ E), orb_true_r in Hfin. discriminate.
    - rewrite (is_nan_intro _ E) in Hfin. discriminate.
    - exists false. unfold SF64sub, SFsub. now rewrite Z.sub_diag. }
  now rewrite FloatAxioms.ltb_spec, FloatAxioms.abs_spec, Hz.
Qed.

Lemma mul_nan_l (x y : float) : is_nan x = true -> is_nan (x * y) = true.
Proof.
  intros Hx%is_nan_inv. apply is_nan_intro.
  now rewrite FloatAxioms.mul_spec, Hx.
Qed.

Lemma div_nan_r (x y : float) : is_nan y = true -> is_nan (x / y) = true.
Proof.
  intros Hy%is_nan_inv. apply is_nan_intro.
  rewrite FloatAxioms.div_spec, Hy. now destruct (Prim2SF x).
Qed.

Lemma is_nan_nan_or_inf (x : float) : is_nan x = true -> nan_or_inf x = true.
Proof. intros H. unfold nan_or_inf. now rewrite H. Qed.

Lemma is_infinity_nan_or_inf (x : float) :
  is_infinity x = true -> nan_or_inf x = true.
Proof. intros H. unfold nan_or_inf. rewrite H. apply orb_true_r. Qed.

(** [x <= y] is [x < y || x == y], also on NaN, where all three are false. *)
Lemma leb_inv (x y : float) :
  (x <=? y) = true -> (x <? y) = true \/ (x =? y) = true.
Proof.
  rewrite FloatAxioms.leb_spec, FloatAxioms.ltb_spec, FloatAxioms.eqb_spec.
  unfold SFleb, SFltb, SFeqb.
  destruct (SFcompare (Prim2SF x) (Prim2SF y)) as [[]|]; auto.
Qed.

Lemma ltb_eqb_false (x y : float) : (x <? y) = true -> (x =? y) = false.
Proof.
  rewrite FloatAxioms.ltb_spec, FloatAxioms.eqb_spec. unfold SFltb, SFeqb.
  now destruct (SFcompare (Prim2SF x) (Prim2SF y)) as [[]|].
Qed.

Lemma SFcompare_Eq_sym (a b : spec_float) :
  SFcompare a b = Some Eq -> SFcompare b a = Some Eq.
Proof.
  destruct a as [sa|sa| |sa ma ea], b as [sb|sb| |sb mb eb]; cbn;
    try discriminate; try reflexivity;
    try (destruct sa; discriminate); try (destruct sb; discriminate).
  - destruct sa, sb; (discriminate || reflexivity).
  - change (PosDef.Pos.compare_cont Eq ma mb) with (Pos.compare ma mb).
    change (PosDef.Pos.compare_cont Eq mb ma) with (Pos.compare mb ma).
    destruct sa, sb; try discriminate;
      destruct (Z.compare_spec ea eb) as [->| |]; try discriminate;
      destruct (Pos.compare_spec ma mb) as [->| |]; try discriminate;
      now rewrite Z.compare_refl, Pos.compare_refl.
Qed.

Lemma ltb_eqb_sym_false (x y : float) : (x <? y) = true -> (y =? x) = false.
Proof.
  rewrite FloatAxioms.ltb_spec, FloatAxioms.eqb_spec. unfold SFltb, SFeqb.
  destruct (SFcompare (Prim2SF y) (Prim2SF x)) as [[]|] eqn:E; try reflexivity.
  now rewrite (SFcompare_Eq_sym _ _ E).
Qed.

(** *** Algebraic laws that hold bit for bit *)

#[local] Ltac by_spec :=
  apply Prim2SF_inj;
  rewrite ?FloatAxioms.opp_spec, ?FloatAxioms.abs_spec, ?FloatAxioms.mul_spec,
    ?FloatAxioms.add_spec, ?FloatAxioms.sub_spec, ?FloatAxioms.div_spec,
    ?FloatAxioms.opp_spec, ?FloatAxioms.abs_spec.

Lemma opp_involutive (x : float) : - - x = x.
Proof. by_spec. destruct (Prim2SF x); cbn; now rewrite ?negb_involutive. Qed.

Lemma abs_opp (x : float) : abs (- x) = abs x.
Proof. by_spec. now destruct (Prim2SF x). Qed.

Lemma xorb_negb_negb (a b : bool) : xorb (negb a) (negb b) = xorb a b.
Proof. now destruct a, b. Qed.

Lemma mul_opp_opp (x y : float) : (- x) * (- y) = x * y.
Proof.
  by_spec. unfold SF64mul.
  destruct (Prim2SF x), (Prim2SF y); cbn; now rewrite ?xorb_negb_negb.
Qed.

Lemma mul_comm (x y : float) : x * y = y * x.
Proof.
  by_spec. unfold SF64mul.
  destruct (Prim2SF x) as [sx|sx| |sx mx ex], (Prim2SF y) as [sy|sy| |sy my ey];
    cbn; try reflexivity; try now rewrite xorb_comm.
  now rewrite xorb_comm, Pos.mul_comm, Z.add_comm.
Qed.

Lemma add_comm (x y : float) : x + y = y + x.
Proof.
  by_spec. unfold SF64add.
  destruct (Prim2SF x) as [sx|sx| |sx mx ex], (Prim2SF y) as [sy|sy| |sy my ey];
    cbn; try reflexivity; try (now destruct sx, sy).
  now rewrite Z.min_comm, Z.add_comm.
Qed.

(** A difference is the sum with the opposite. *)
Lemma sub_add_opp (x y : float) : x - y = x + (- y).
Proof.
  by_spec. unfold SF64sub, SF64add.
  destruct (Prim2SF x) as [sx|sx| |sx mx ex], (Prim2SF y) as [sy|sy| |sy my ey];
    cbn; try reflexivity; now destruct sx, sy.
Qed.

(** Subtracting [0.0] changes nothing; adding [0.0] changes [-0.0] alone,
    into [0.0]. *)
Lemma sub_zero_r (x : float) : x - 0 = x.
Proof.
  by_spec. rewrite Prim2SF_zero. unfold SF64sub.
  destruct (Prim2SF x) as [sx|sx| |sx mx ex]; cbn; try reflexivity.
  now destruct sx.
Qed.

Lemma add_zero_r (x : float) : Prim2SF x <> S754_zero true -> x + 0 = x.
Proof.
  intros Hx. by_spec. rewrite Prim2SF_zero. unfold SF64add.
  destruct (Prim2SF x) as [sx|sx| |sx mx ex]; cbn; try reflexivity.
  now destruct sx.
Qed.

Lemma add_zero_r_neg_zero (x : float) :
  Prim2SF x = S754_zero true ->
  Prim2SF (x + 0) = S754_zero false /\ (x + 0 =? x) = true.
Proof.
  intros Hx.
  assert (Prim2SF (x + 0) = S754_zero false) as H
    by now rewrite FloatAxioms.add_spec, Hx, Prim2SF_zero.
  split; [exact H|]. now rewrite FloatAxioms.eqb_spec, H, Hx.
Qed.

(** The sign of what a rounding returns is the sign it was given. *)
Lemma SFabs_binary_round (s s' : bool) (m : positive) (e : Z) :
  SFabs (binary_round prec emax s m e) = SFabs (binary_round prec emax s' m e).
Proof.
  unfold binary_round, binary_round_aux.
  destruct (shl_align _ _ _) as [mz ez].
  destruct (shr_fexp _ _ _ _ _) as [mrs1 e1].
  destruct (shr_fexp _ _ _ _ _) as [mrs2 e2].
  destruct (shr_m mrs2); try reflexivity.
  now destruct (Z.leb _ _).
Qed.

Lemma SFabs_binary_normalize_opp (m e : Z) (sz : bool) :
  SFabs (binary_normalize prec emax (- m) e sz)
  = SFabs (binary_normalize prec emax m e sz).
Proof. destruct m; cbn; try reflexivity; apply SFabs_binary_round. Qed.

(** The distance between two numbers does not depend on their order. *)
Lemma abs_sub_sym (x y : float) : abs (x - y) = abs (y - x).
Proof.
  by_spec. unfold SF64sub.
  destruct (Prim2SF x) as [sx|sx| |sx mx ex], (Prim2SF y) as [sy|sy| |sy my ey];
    cbn; try reflexivity; try (now destruct sx, sy).
  rewrite (Z.min_comm ey ex), <- SFabs_binary_normalize_opp.
  now rewrite Z.opp_sub_distr, Z.add_comm, Z.add_opp_r.
Qed.

(** *** NaN and the infinities through the operations *)

Lemma is_nan_nan : is_nan nan = true.
Proof. reflexivity. Qed.

Lemma opp_nan (x : float) : is_nan x = true -> is_nan (- x) = true.
Proof.
  intros Hx%is_nan_inv. apply is_nan_intro.
  now rewrite FloatAxioms.opp_spec, Hx.
Qed.

Lemma abs_nan (x : float) : is_nan x = true -> is_nan (abs x) = true.
Proof.
  intros Hx%is_nan_inv. apply is_nan_intro.
  now rewrite FloatAxioms.abs_spec, Hx.
Qed.

Lemma sqrt_nan (x : float) : is_nan x = true -> is_nan (sqrt x) = true.
Proof.
  intros Hx%is_nan_inv. apply is_nan_intro.
  now rewrite FloatAxioms.sqrt_spec, Hx.
Qed.

Lemma mul_nan_r (x y : float) : is_nan y = true -> is_nan (x * y) = true.
Proof. intros H. rewrite mul_comm. now apply mul_nan_l. Qed.

Lemma add_nan_l (x y : float) : is_nan x = true -> is_nan (x + y) = true.
Proof.
  intros Hx%is_nan_inv. apply is_nan_intro.
  now rewrite FloatAxioms.add_spec, Hx.
Qed.

Lemma add_nan_r (x y : float) : is_nan y = true -> is_nan (x + y) = true.
Proof. intros H. rewrite add_comm. now apply add_nan_l. Qed.

Lemma sub_nan_l (x y : float) : is_nan x = true -> is_nan (x - y) = true.
Proof. intros H. rewrite sub_add_opp. now apply add_nan_l. Qed.

Lemma sub_nan_r (x y : float) : is_nan y = true -> is_nan (x - y) = true.
Proof. intros H. rewrite sub_add_opp. now apply add_nan_r, opp_nan. Qed.

Lemma nan_or_inf_sub_l (x y : float) :
  nan_or_inf x = true -> nan_or_inf (x - y) = true.
Proof.
  intros Hx. pose proof (FloatAxioms.sub_spec x y) as H.
  destruct (nan_or_inf_inv x Hx) as [Hn|[s Hi]].
  - rewrite Hn in H. now apply nan_or_inf_nan.
  - rewrite Hi in H.
    destruct (Prim2SF y) as [sy|sy| |sy m e]; cbn in H;
      eauto using nan_or_inf_nan, nan_or_inf_inf.
    destruct s, sy; eauto using nan_or_inf_nan, nan_or_inf_inf.
Qed.

Lemma nan_or_inf_abs (x : float) :
  nan_or_inf x = true -> nan_or_inf (abs x) = true.
Proof.
  intros Hx. pose proof (FloatAxioms.abs_spec x) as H.
  destruct (nan_or_inf_inv x Hx) as [Hn|[s Hi]].
  - rewrite Hn in H. now apply nan_or_inf_nan.
  - rewrite Hi in H. now apply (nan_or_inf_inf _ false).
Qed.

(** Neither NaN nor the distance to an infinity is below epsilon. *)
Lemma far_apart_l (x y : float) :
  nan_or_inf x = true -> (abs (x - y) <? epsilon) = false.
Proof.
  intros Hx%(nan_or_inf_sub_l _ y).
  rewrite FloatAxioms.ltb_spec, FloatAxioms.abs_spec.
  destruct (nan_or_inf_inv _ Hx) as [->|[s ->]]; reflexivity.
Qed.

Lemma far_apart_r (x y : float) :
  nan_or_inf y = true -> (abs (x - y) <? epsilon) = false.
Proof. intros Hy. rewrite abs_sub_sym. now apply far_apart_l. Qed.

Lemma nan_or_inf_mul_r (x y : float) :
  nan_or_inf y = true -> nan_or_inf (x * y) = true.
Proof.
  intros Hy. pose proof (FloatAxioms.mul_spec x y) as H.
  destruct (nan_or_inf_inv y Hy) as [Hn|[s Hi]].
  - rewrite Hn in H. apply nan_or_inf_nan. rewrite H. now destruct (Prim2SF x).
  - rewrite Hi in H.
    destruct (Prim2SF x) as [sx|sx| |sx m e]; cbn in H;
      eauto using nan_or_inf_nan, nan_or_inf_inf.
Qed.

Lemma nan_or_inf_mul_l (x y : float) :
  nan_or_inf x = true -> nan_or_inf (x * y) = true.
Proof. intros H. rewrite mul_comm. now apply nan_or_inf_mul_r. Qed.

Lemma nan_or_inf_add_r (x y : float) :
  nan_or_inf y = true -> nan_or_inf (x + y) = true.
Proof.
  intros Hy. pose proof (FloatAxioms.add_spec x y) as H.
  destruct (nan_or_inf_inv y Hy) as [Hn|[s Hi]].
  - rewrite Hn in H. apply nan_or_inf_nan. rewrite H. now destruct (Prim2SF x).
  - rewrite Hi in H.
    destruct (Prim2SF x) as [sx|sx| |sx m e]; cbn in H;
      eauto using nan_or_inf_nan, nan_or_inf_inf.
    destruct sx, s; eauto using nan_or_inf_nan, nan_or_inf_inf.
Qed.

(** The two floats of magnitude one. *)
Lemma Prim2SF_one : Prim2SF 1 = S754_finite false 4503599627370496 (-52).
Proof. vm_compute. reflexivity. Qed.

Lemma Prim2SF_minus_one :
  Prim2SF (-1) = S754_finite true 4503599627370496 (-52).
Proof. vm_compute. reflexivity. Qed.

Lemma SFeqb_abs_inv (sx : spec_float) (k : positive) (z : Z) :
  SFeqb (SFabs sx) (S754_finite false k z) = true ->
  sx = S754_finite false k z \/ sx = S754_finite true k z.
Proof.
  unfold SFeqb.
  destruct sx as [s|s| |s m e]; unfold SFabs, SFcompare; try discriminate.
  destruct (Z.compare_spec e z) as [->| |]; try discriminate.
  change (PosDef.Pos.compare_cont Eq m k) with (Pos.compare m k).
  destruct (Pos.compare_spec m k) as [->| |]; try discriminate.
  intros _. destruct s; [right|left]; reflexivity.
Qed.

Lemma abs_one_inv (x : float) :
  (abs x =? 1) = true -> x = 1 \/ x = -1.
Proof.
  rewrite FloatAxioms.eqb_spec, FloatAxioms.abs_spec, Prim2SF_one.
  intros [H|H]%SFeqb_abs_inv; [left|right]; apply Prim2SF_inj.
  - now rewrite Prim2SF_one.
  - now rewrite Prim2SF_minus_one.
Qed.

(** An absolute value is never below zero. *)
Lemma abs_not_negative (x : float) : (abs x <? 0) = false.
Proof.
  rewrite FloatAxioms.ltb_spec, FloatAxioms.abs_spec, Prim2SF_zero.
  now destruct (Prim2SF x).
Qed.

Lemma abs_idempotent (x : float) : abs (abs x) = abs x.
Proof. by_spec. now destruct (Prim2SF x). Qed.

End IEEEFacts.

(** ** The dual-number algebra *)

Module DualFacts.
Import IEEE Dual.

Lemma update_eq (a : addr) (x : DualNumber) (s : store) : update a x s a = x.
Proof. unfold update. now rewrite Nat.eqb_refl. Qed.

Lemma update_ne (a b : addr) (x : DualNumber) (s : store) :
  b <> a -> update a x s b = s b.
Proof. intros H. unfold update. now apply Nat.eqb_neq in H as ->. Qed.

#[local] Ltac store_simpl :=
  cbv [write_primal write_dual set_primal set_dual];
  repeat first [ rewrite update_eq | rewrite update_ne by congruence ];
  cbn [primal dual].

(** The value-returning operators follow the product and quotient rules on
    all operands: their first operand is a copy. *)
Lemma op_mul_product_rule (a b : DualNumber) : op_mul a b = product_rule a b.
Proof. reflexivity. Qed.

Lemma op_div_quotient_rule (a b : DualNumber) :
  op_div a b = quotient_rule a b.
Proof. reflexivity. Qed.

(** So do the compound assignments when the operand is another object, and
    they write [*this] only. *)
Lemma op_mul_assign_distinct (this other : addr) (s : store) :
  this <> other ->
  op_mul_assign this other s this = product_rule (s this) (s other).
Proof. intros H. unfold op_mul_assign, product_rule. now store_simpl. Qed.

Lemma op_div_assign_distinct (this other : addr) (s : store) :
  this <> other ->
  op_div_assign this other s this = quotient_rule (s this) (s other).
Proof. intros H. unfold op_div_assign, quotient_rule. now store_simpl. Qed.

Lemma op_mul_assign_frame (this other a : addr) (s : store) :
  a <> this -> op_mul_assign this other s a = s a.
Proof. intros H. unfold op_mul_assign. now store_simpl. Qed.

Lemma op_div_assign_frame (this other a : addr) (s : store) :
  a <> this -> op_div_assign this other s a = s a.
Proof. intros H. unfold op_div_assign. now store_simpl. Qed.

(** When the operand is the object itself, the second assignment reads the
    primal component the first one has just written. *)
Lemma op_mul_assign_self (this : addr) (s : store) :
  op_mul_assign this this s this
  = let p := primal (s this) in
    let d := dual (s this) in
    mkDual (p * p) (p * d + d * (p * p)).
Proof. unfold op_mul_assign. now store_simpl. Qed.

Lemma op_div_assign_self (this : addr) (s : store) :
  op_div_assign this this s this
  = let p := primal (s this) in
    let d := dual (s this) in
    mkDual (p / p) ((d * (p / p) - p * d) / ((p / p) * (p / p))).
Proof. unfold op_div_assign. now store_simpl. Qed.

(** C3, at the failing input.  With [a = DualNumber(2.0, 1.0)], the statement
    [a *= a] leaves [(4.0, 6.0)] in [a]; the product rule, and the
    value-returning [a * a], give [(4.0, 4.0)]. *)
Theorem mul_assign_self_misses_product_rule :
  let a := mkDual 2.0 1.0 in
  let s : store := fun _ => a in
  op_mul_assign 0%nat 0%nat s 0%nat = mkDual 4.0 6.0
  /\ product_rule a a = mkDual 4.0 4.0
  /\ op_mul a a = mkDual 4.0 4.0.
Proof. repeat split; reflexivity. Qed.

(** C4, at the failing input.  With [a = DualNumber(2.0, 1.0)], the statement
    [a /= a] leaves [(1.0, -1.0)] in [a]; the quotient rule, and the
    value-returning [a / a], give [(1.0, 0.0)]. *)
Theorem div_assign_self_misses_quotient_rule :
  let a := mkDual 2.0 1.0 in
  let s : store := fun _ => a in
  op_div_assign 0%nat 0%nat s 0%nat = mkDual 1.0 (-1.0)
  /\ quotient_rule a a = mkDual 1.0 0.0
  /\ op_div a a = mkDual 1.0 0.0.
Proof. repeat split; reflexivity. Qed.

(** Division by a dual number whose primal component is a zero: both
    components of the quotient are an infinity or NaN. *)
Lemma quotient_rule_by_zero (a b : DualNumber) :
  (primal b =? 0) = true ->
  nan_or_inf (primal (quotient_rule a b)) = true
  /\ nan_or_inf (dual (quotient_rule a b)) = true.
Proof.
  intros Hb. cbn [quotient_rule primal dual]. split.
  - now apply IEEEFacts.div_by_zero.
  - apply IEEEFacts.div_by_zero. now apply IEEEFacts.mul_zero_zero.
Qed.

Lemma op_div_scalar_by_zero (a : DualNumber) (scalar : float) :
  (scalar =? 0) = true ->
  nan_or_inf (primal (op_div_scalar a scalar)) = true
  /\ nan_or_inf (dual (op_div_scalar a scalar)) = true.
Proof. intros H. split; now apply IEEEFacts.div_by_zero. Qed.

(** C8 as stated fails: an object whose primal component is NaN compares
    equal to itself, although [|NaN - NaN| < epsilon] is false. *)
Lemma eq_same_object_nan :
  let s : store := fun _ => mkDual nan 0.0 in
  op_eq 0%nat 0%nat s = true
  /\ (abs (primal (s 0%nat) - primal (s 0%nat)) <? epsilon) = false
  /\ op_eq 0%nat 1%nat s = false.
Proof. repeat split; reflexivity. Qed.

(** C8, amended.  [operator==] returns true exactly when the two operands
    are the same object or both components differ by strictly less than
    machine epsilon; between two distinct objects it is the epsilon test
    alone; [operator!=] is its negation. *)
Theorem op_eq_iff (this other : addr) (s : store) :
  (op_eq this other s = true
   <-> this = other
       \/ ((abs (primal (s this) - primal (s other)) <? epsilon) = true
           /\ (abs (dual (s this) - dual (s other)) <? epsilon) = true))
  /\ (this <> other -> op_eq this other s = close (s this) (s other))
  /\ op_ne this other s = negb (op_eq this other s).
Proof.
  unfold op_eq, op_ne, close. split; [|split]; [|intros H|reflexivity].
  - rewrite orb_true_iff, andb_true_iff, Nat.eqb_eq. reflexivity.
  - apply Nat.eqb_neq in H as ->. reflexivity.
Qed.

(** On finite components the identity test changes nothing: an object is
    within epsilon of itself.  It decides the comparison only for an object
    with a NaN or infinite component. *)
Lemma op_eq_same_object_finite (this : addr) (s : store) :
  is_finite (primal (s this)) = true ->
  is_finite (dual (s this)) = true ->
  close (s this) (s this) = true.
Proof.
  intros Hp Hd. unfold close.
  now rewrite !IEEEFacts.sub_self_finite.
Qed.

Lemma op_eq_iff_witness :
  let s : store := frame (mkDual 1.0 2.0) (mkDual 1.0 2.0) in
  by_value <> by_ref /\ op_eq by_value by_ref s = true.
Proof.
  split; [discriminate|].
  rewrite (proj1 (proj2 (op_eq_iff by_value by_ref _))) by discriminate.
  reflexivity.
Defined.

Lemma op_div_assign_scalar_by_zero (this : addr) (scalar : float)
    (s : store) :
  (scalar =? 0) = true ->
  nan_or_inf (primal (op_div_assign_scalar this scalar s this)) = true
  /\ nan_or_inf (dual (op_div_assign_scalar this scalar s this)) = true.
Proof.
  intros H. unfold op_div_assign_scalar. store_simpl.
  split; now apply IEEEFacts.div_by_zero.
Qed.

(** The compound division by a zero, the operand being another object or the
    object itself. *)
Lemma op_div_assign_by_zero (this other : addr) (s : store) :
  (primal (s other) =? 0) = true ->
  nan_or_inf (primal (op_div_assign this other s this)) = true
  /\ nan_or_inf (dual (op_div_assign this other s this)) = true.
Proof.
  intros H. destruct (decide (this = other)) as [<-|Hne].
  - rewrite op_div_assign_self. cbn [primal dual].
    assert (is_nan (primal (s this) / primal (s this)) = true) as Hq
      by now apply IEEEFacts.zero_over_zero.
    split; apply IEEEFacts.is_nan_nan_or_inf; [exact Hq|].
    apply IEEEFacts.div_nan_r. now apply IEEEFacts.mul_nan_l.
  - rewrite op_div_assign_distinct by done.
    now apply quotient_rule_by_zero.
Qed.

End DualFacts.

(** ** The elementary functions *)

Module OpsFacts.
Import IEEE Dual.

(** C9.  [abs] returns [(|p|, d * p / |p|)]; nothing is special-cased at
    [p == 0], where the dual component is the NaN of a division of a zero (or
    of NaN) by zero. *)
Theorem abs_rule (a : DualNumber) :
  primal (Ops.abs a) = abs (primal a)
  /\ dual (Ops.abs a) = dual a * primal a / abs (primal a)
  /\ ((primal a =? 0) = true -> is_nan (dual (Ops.abs a)) = true).
Proof.
  split; [reflexivity|]. split; [reflexivity|].
  intros Hp. cbn [Ops.abs dual primal].
  destruct (IEEEFacts.mul_by_zero (dual a) (primal a) Hp) as [Hz|Hn].
  - apply IEEEFacts.zero_over_zero; [exact Hz|]. now apply IEEEFacts.abs_zero.
  - now apply IEEEFacts.nan_over.
Qed.

Lemma abs_rule_witness :
  (primal (mkDual 0.0 1.0) =? 0) = true
  /\ is_nan (dual (Ops.abs (mkDual 0.0 1.0))) = true.
Proof.
  split; [reflexivity|].
  apply (proj2 (proj2 (abs_rule (mkDual 0.0 1.0)))). reflexivity.
Defined.

(** The elementary functions pass the primal component to the C library and
    return what it returns: nothing is caught or replaced. *)
Lemma primal_passes_through (m : Ops.Libm) (a : DualNumber) :
  primal (Ops.log m a) = Ops.std_log m (primal a)
  /\ primal (Ops.asin m a) = Ops.std_asin m (primal a)
  /\ primal (Ops.acos m a) = Ops.std_acos m (primal a)
  /\ primal (Ops.acosh m a) = Ops.std_acosh m (primal a)
  /\ primal (Ops.atanh m a) = Ops.std_atanh m (primal a).
Proof. repeat split. Qed.

Section AnnexF.
Variable m : Ops.Libm.
Hypothesis annex_f : Ops.AnnexF m.

Lemma log_non_positive (a : DualNumber) :
  (primal a <=? 0) = true -> nan_or_inf (primal (Ops.log m a)) = true.
Proof.
  intros [H|H]%IEEEFacts.leb_inv; cbn [Ops.log primal].
  - apply IEEEFacts.is_nan_nan_or_inf. now apply Ops.log_negative.
  - apply IEEEFacts.is_infinity_nan_or_inf. now apply Ops.log_zero.
Qed.

Lemma log_base_non_positive (a : DualNumber) (base : float) :
  (primal a <=? 0) = true ->
  nan_or_inf (primal (Ops.log_base m a base)) = true.
Proof.
  intros H.
  change (nan_or_inf (primal (Ops.log m a) / Ops.std_log m base) = true).
  apply IEEEFacts.nan_or_inf_div. now apply log_non_positive.
Qed.

(** [pow] at a zero primal component with an exponent below zero, the pole
    of [std::pow], and at a finite primal component below zero with a finite
    exponent that is no integer, its domain error. *)
Lemma pow_at_zero (a : DualNumber) (exponent : float) :
  (primal a =? 0) = true -> (exponent <? 0) = true ->
  is_infinity (primal (Ops.pow m a exponent)) = true
  /\ ((exponent - 1.0 <? 0) = true ->
      nan_or_inf (dual (Ops.pow m a exponent)) = true).
Proof.
  intros H Hneg. cbn [Ops.pow primal dual]. split.
  - now apply Ops.pow_pole.
  - intros Hneg'.
    apply IEEEFacts.nan_or_inf_mul_r, IEEEFacts.is_infinity_nan_or_inf.
    now apply Ops.pow_pole.
Qed.

Lemma pow_negative_base (a : DualNumber) (exponent : float) :
  (primal a <? 0) = true -> is_finite (primal a) = true ->
  is_finite exponent = true -> IEEE.is_integer exponent = false ->
  is_nan (primal (Ops.pow m a exponent)) = true
  /\ (forall b, primal b = exponent ->
        is_nan (primal (Ops.pow_dual m a b)) = true
        /\ is_nan (dual (Ops.pow_dual m a b)) = true).
Proof.
  intros H Hfin Hfin' Hint.
  split; [now apply Ops.pow_domain|].
  intros b <-. cbn [Ops.pow_dual primal dual].
  split; [|apply IEEEFacts.mul_nan_l]; now apply Ops.pow_domain.
Qed.

(** [inverse] and [scalar / num] at a zero primal component: the pole of
    [std::pow] at zero, for the exponents [-1] and [-2]. *)
Lemma inverse_at_zero (a : DualNumber) :
  (primal a =? 0) = true ->
  nan_or_inf (primal (Ops.inverse m a)) = true
  /\ nan_or_inf (dual (Ops.inverse m a)) = true.
Proof.
  intros H. cbn [Ops.inverse Ops.pow primal dual]. split.
  - apply IEEEFacts.is_infinity_nan_or_inf. now apply Ops.pow_pole.
  - apply IEEEFacts.nan_or_inf_mul_r, IEEEFacts.is_infinity_nan_or_inf.
    now apply Ops.pow_pole.
Qed.

Lemma op_scalar_div_at_zero (scalar : float) (a : DualNumber) :
  (primal a =? 0) = true ->
  nan_or_inf (primal (Ops.op_scalar_div m scalar a)) = true
  /\ nan_or_inf (dual (Ops.op_scalar_div m scalar a)) = true.
Proof.
  intros [Hp Hd]%inverse_at_zero.
  change (nan_or_inf (scalar * primal (Ops.inverse m a)) = true
          /\ nan_or_inf (scalar * dual (Ops.inverse m a)) = true).
  split; now apply IEEEFacts.nan_or_inf_mul_r.
Qed.

(** [sqrt] is [pow] with the exponent [0.5]: a pole of the derivative at a
    zero primal component, a domain error below zero. *)
Lemma sqrt_at_zero (a : DualNumber) :
  (primal a =? 0) = true -> nan_or_inf (dual (Ops.sqrt m a)) = true.
Proof.
  intros H. cbn [Ops.sqrt Ops.pow primal dual].
  apply IEEEFacts.nan_or_inf_mul_r, IEEEFacts.is_infinity_nan_or_inf.
  now apply Ops.pow_pole.
Qed.

Lemma sqrt_negative (a : DualNumber) :
  (primal a <? 0) = true -> is_finite (primal a) = true ->
  is_nan (primal (Ops.sqrt m a)) = true
  /\ is_nan (dual (Ops.sqrt m a)) = true.
Proof.
  intros H Hfin. cbn [Ops.sqrt Ops.pow primal dual]. split.
  - now apply Ops.pow_domain.
  - apply IEEEFacts.mul_nan_r. now apply Ops.pow_domain.
Qed.

End AnnexF.

(** Divisions by a zero inside the derivative rules, whatever the C library
    returns: the logarithms and the power with a dual exponent at a zero
    primal component, the tangents where the cosine is a zero, and the
    inverse functions at the ends of their domain. *)
Lemma log_dual_at_zero (m : Ops.Libm) (a : DualNumber) (base : float) :
  (primal a =? 0) = true ->
  nan_or_inf (dual (Ops.log m a)) = true
  /\ nan_or_inf (dual (Ops.log_base m a base)) = true.
Proof.
  intros H.
  assert (nan_or_inf (dual (Ops.log m a)) = true) as Hlog
    by now apply IEEEFacts.div_by_zero.
  split; [exact Hlog|].
  change (nan_or_inf (dual (Ops.log m a) / Ops.std_log m base) = true).
  now apply IEEEFacts.nan_or_inf_div.
Qed.

Lemma pow_dual_at_zero (m : Ops.Libm) (a exponent : DualNumber) :
  (primal a =? 0) = true ->
  nan_or_inf (dual (Ops.pow_dual m a exponent)) = true.
Proof.
  intros H. cbn [Ops.pow_dual dual].
  apply IEEEFacts.nan_or_inf_mul_r, IEEEFacts.nan_or_inf_add_r.
  now apply IEEEFacts.div_by_zero.
Qed.

Lemma tan_at_zero_cosine (m : Ops.Libm) (a : DualNumber) :
  ((Ops.std_cos m (primal a) =? 0) = true ->
   nan_or_inf (dual (Ops.tan m a)) = true)
  /\ ((Ops.std_cosh m (primal a) =? 0) = true ->
      nan_or_inf (dual (Ops.tanh m a)) = true).
Proof.
  split; intros H; cbn [Ops.tan Ops.tanh dual];
    now apply IEEEFacts.div_by_zero, IEEEFacts.mul_zero_zero.
Qed.

Lemma inverse_functions_at_one (m : Ops.Libm) (a : DualNumber) :
  (abs (primal a) =? 1) = true ->
  nan_or_inf (dual (Ops.asin m a)) = true
  /\ nan_or_inf (dual (Ops.acos m a)) = true
  /\ nan_or_inf (dual (Ops.acosh m a)) = true
  /\ nan_or_inf (dual (Ops.atanh m a)) = true.
Proof.
  destruct a as [p d]. cbn [primal].
  intros [-> | ->]%IEEEFacts.abs_one_inv;
    cbn [Ops.asin Ops.acos Ops.acosh Ops.atanh primal dual];
    repeat split; now apply IEEEFacts.div_by_zero.
Qed.

Lemma libm_annex_f : Ops.AnnexF Examples.libm.
Proof.
  split; cbn.
  - intros x H. now rewrite (IEEEFacts.ltb_eqb_false _ _ H), H.
  - intros x H. now rewrite H.
  - intros x H. now rewrite H.
  - intros x H. now rewrite H.
  - intros x H. now rewrite H.
  - intros x H. now rewrite (IEEEFacts.ltb_eqb_sym_false _ _ H), H.
  - intros x H. now rewrite H.
  - intros x y Hx Hy. now rewrite Hx, Hy.
  - intros x y Hx _ _ Hy. now rewrite (IEEEFacts.ltb_eqb_false _ _ Hx), Hx, Hy.
Qed.

End OpsFacts.

(** ** The seeding engine *)

Module ForwardFacts.
Import Dual Forward.
Local Open Scope nat_scope.

(** *** Loops and storage *)

Section Loops.
Context {X St : Type}.
Implicit Types (body : nat -> St -> Counted X St) (s : St) (log : list X).

Lemma for_range_S first count body s log :
  for_range first (S count) body s log
  = match body first s log with
    | Some (s', log') => for_range (S first) count body s' log'
    | None => None
    end.
Proof. reflexivity. Qed.

(** The last iteration of a loop, peeled off. *)
Lemma for_range_snoc count : forall first body s log,
  for_range first (S count) body s log
  = bind (for_range first count body s) (body (first + count)) log.
Proof.
  induction count as [|count IH]; intros first body s log.
  - cbn. unfold bind. rewrite Nat.add_0_r.
    destruct (body first s log) as [[s' log']|]; reflexivity.
  - unfold bind.
    rewrite (for_range_S first (S count)), (for_range_S first count).
    destruct (body first s log) as [[s' log']|]; [|reflexivity].
    rewrite IH. unfold bind. now rewrite Nat.add_succ_comm.
Qed.

(** A loop run from a state it reaches after [i] iterations. *)
Lemma for_range_step i body s0 log0 s log s' log' :
  for_range 0 i body s0 log0 = Some (s, log) ->
  body i s log = Some (s', log') ->
  for_range 0 (S i) body s0 log0 = Some (s', log').
Proof. intros H1 H2. rewrite for_range_snoc. unfold bind. now rewrite H1. Qed.

End Loops.

Section Storage.
Context {T : Type}.
Implicit Types (g : nat -> T) (l : list T).

Lemma length_createVector n g : length (createVector n g) = n.
Proof. unfold createVector. now rewrite length_fmap, length_seq. Qed.

Lemma lookup_createVector n g k :
  k < n -> createVector n g !! k = Some (g k).
Proof.
  intros H. unfold createVector.
  now rewrite list_lookup_fmap, lookup_seq_lt.
Qed.

Lemma lookup_createVector_ge n g k : n <= k -> createVector n g !! k = None.
Proof. intros H. apply lookup_ge_None_2. now rewrite length_createVector. Qed.

(** Two vectors of one length with the same entries are equal. *)
Lemma createVector_intro n g l :
  length l = n -> (forall k x, l !! k = Some x -> x = g k) ->
  l = createVector n g.
Proof.
  intros Hlen H. apply list_eq. intros k.
  destruct (decide (k < n)) as [Hk|Hk].
  - rewrite lookup_createVector by done.
    destruct (lookup_lt_is_Some_2 l k) as [x Hx]; [lia|].
    rewrite Hx. f_equal. now apply H.
  - rewrite lookup_createVector_ge by lia.
    apply lookup_ge_None_2. lia.
Qed.

Lemma createVector_ext n g g' :
  (forall k, k < n -> g k = g' k) -> createVector n g = createVector n g'.
Proof.
  intros H. apply createVector_intro; [apply length_createVector|].
  intros k x Hx. assert (k < n) as Hk.
  { apply lookup_lt_Some in Hx. now rewrite length_createVector in Hx. }
  rewrite lookup_createVector in Hx by done. injection Hx as <-. now apply H.
Qed.

Lemma alter_createVector (h : T -> T) i n g :
  alter h i (createVector n g)
  = createVector n (fun k => if Nat.eqb k i then h (g k) else g k).
Proof.
  apply createVector_intro.
  - now rewrite length_alter, length_createVector.
  - intros k x Hx.
    assert (k < n) as Hk.
    { apply lookup_lt_Some in Hx.
      now rewrite length_alter, length_createVector in Hx. }
    destruct (decide (i = k)) as [->|Hne].
    + rewrite list_lookup_alter_eq, lookup_createVector in Hx by done.
      rewrite Nat.eqb_refl. cbn in Hx. congruence.
    + rewrite list_lookup_alter_ne, lookup_createVector in Hx by done.
      apply Nat.eqb_neq in Hne. rewrite Nat.eqb_sym, Hne. congruence.
Qed.

Lemma insert_createVector i x n g :
  <[i := x]> (createVector n g)
  = createVector n (fun k => if Nat.eqb k i then x else g k).
Proof.
  apply createVector_intro.
  - now rewrite length_insert, length_createVector.
  - intros k y Hy.
    assert (k < n) as Hk.
    { apply lookup_lt_Some in Hy.
      now rewrite length_insert, length_createVector in Hy. }
    destruct (decide (i = k)) as [->|Hne].
    + rewrite list_lookup_insert_eq in Hy by now rewrite length_createVector.
      rewrite Nat.eqb_refl. congruence.
    + rewrite list_lookup_insert_ne, lookup_createVector in Hy by done.
      apply Nat.eqb_neq in Hne. rewrite Nat.eqb_sym, Hne. congruence.
Qed.

End Storage.

(** *** Seeding *)

Lemma seed_unseeded (u : list float) (i : nat) :
  seed i (unseeded u) = seeded u i.
Proof.
  apply list_eq. intros j. unfold seed, unseeded, seeded.
  rewrite list_lookup_imap.
  destruct (decide (i = j)) as [->|Hne].
  - rewrite list_lookup_alter_eq, list_lookup_fmap, Nat.eqb_refl.
    now destruct (u !! j).
  - rewrite list_lookup_alter_ne, list_lookup_fmap by done.
    apply Nat.eqb_neq in Hne. rewrite Nat.eqb_sym, Hne. reflexivity.
Qed.

Lemma unseed_seeded (u : list float) (i : nat) :
  unseed i (seeded u i) = unseeded u.
Proof.
  apply list_eq. intros j. unfold unseed, unseeded, seeded.
  destruct (decide (i = j)) as [->|Hne].
  - rewrite list_lookup_alter_eq, list_lookup_imap, list_lookup_fmap.
    now destruct (u !! j).
  - rewrite list_lookup_alter_ne, list_lookup_imap, list_lookup_fmap by done.
    apply Nat.eqb_neq in Hne. rewrite Nat.eqb_sym, Hne. reflexivity.
Qed.

Lemma only_seed_seeded (u : list float) (i : nat) : only_seed i (seeded u i).
Proof.
  intros j x. unfold seeded. rewrite list_lookup_imap.
  destruct (u !! j); cbn; [|discriminate]. now intros [= <-].
Qed.

Lemma no_seed_unseeded (u : list float) : no_seed (unseeded u).
Proof.
  intros j x. unfold unseeded. rewrite list_lookup_fmap.
  destruct (u !! j); cbn; [|discriminate]. now intros [= <-].
Qed.

Lemma length_unseeded (u : list float) : length (unseeded u) = length u.
Proof. unfold unseeded. now rewrite length_fmap. Qed.

Lemma seeds_S (u : list float) (i : nat) :
  seeded u <$> seq 0 (S i) = (seeded u <$> seq 0 i) ++ [seeded u i].
Proof. now rewrite seq_S, fmap_app. Qed.

(** *** The four seeding loops, by their common shape

    Every loop body seeds entry [i], invokes [f], stores what it harvests
    from the result, which does not invoke [f], and resets entry [i]. *)
Section SeedingLoop.
Context {Y Acc : Type}.
Variable f : Input -> Y.
Variable u : list float.
Variable body : nat -> Input * Acc -> Counted Input (Input * Acc).
Variable harvest : nat -> Y -> Acc -> Counted Input Acc.

Hypothesis body_shape : forall i dual_numbers a log,
  body i (dual_numbers, a) log
  = match harvest i (f (seed i dual_numbers)) a (log ++ [seed i dual_numbers])
    with
    | Some (a', log') => Some ((unseed i (seed i dual_numbers), a'), log')
    | None => None
    end.

Hypothesis harvest_log : forall i r a log a' log',
  harvest i r a log = Some (a', log') -> log' = log.

Lemma seeding_body_inv i a log st' log' :
  body i (unseeded u, a) log = Some (st', log') ->
  log' = log ++ [seeded u i] /\ fst st' = unseeded u.
Proof.
  rewrite body_shape, seed_unseeded, unseed_seeded.
  destruct (harvest _ _ _ _) as [[a' log'']|] eqn:E; [|discriminate].
  intros [= <- <-]. apply harvest_log in E as ->. now split.
Qed.

Lemma seeding_loop_reach a0 log0 i : forall dual_numbers a log,
  for_range 0 i body (unseeded u, a0) log0 = Some ((dual_numbers, a), log) ->
  dual_numbers = unseeded u /\ log = log0 ++ (seeded u <$> seq 0 i).
Proof.
  induction i as [|i IH]; intros dual_numbers a log.
  - cbn. intros [= <- <- <-]. now rewrite app_nil_r.
  - rewrite for_range_snoc. unfold bind.
    destruct (for_range 0 i body _ log0) as [[[dns1 a1] log1]|]; [|discriminate].
    destruct (IH dns1 a1 log1 eq_refl) as [-> ->].
    intros [Hlog Hdns]%seeding_body_inv. cbn in Hdns.
    now rewrite Hlog, Hdns, seeds_S, app_assoc.
Qed.

Lemma seeding_loop_invariant a0 : seed_invariant u body (unseeded u, a0).
Proof.
  intros i dual_numbers a log _ [-> _]%seeding_loop_reach.
  split; [apply no_seed_unseeded|]. intros _.
  rewrite seed_unseeded.
  split; [apply only_seed_seeded|]. split; [reflexivity|].
  intros st' log'. apply seeding_body_inv.
Qed.

(** [acc i] is the store after [i] iterations. *)
Variable acc : nat -> Acc.

Hypothesis harvest_step : forall i log,
  i < length u ->
  harvest i (f (seeded u i)) (acc i) log = Some (acc (S i), log).

Lemma seeding_body_step i log :
  i < length u ->
  body i (unseeded u, acc i) log
  = Some ((unseeded u, acc (S i)), log ++ [seeded u i]).
Proof.
  intros Hi. rewrite body_shape, seed_unseeded, harvest_step by done.
  now rewrite unseed_seeded.
Qed.

Lemma seeding_loop_prefix i log :
  i <= length u ->
  for_range 0 i body (unseeded u, acc 0) log
  = Some ((unseeded u, acc i), log ++ (seeded u <$> seq 0 i)).
Proof.
  induction i as [|i IH]; intros Hi.
  - cbn. now rewrite app_nil_r.
  - apply (for_range_step _ _ _ _ _ _ _ _ (IH ltac:(lia))).
    rewrite seeding_body_step by lia. now rewrite seeds_S, app_assoc.
Qed.

Lemma seeding_loop_run log :
  for_range 0 (length u) body (unseeded u, acc 0) log
  = Some ((unseeded u, acc (length u)), log ++ seeds u).
Proof. now apply seeding_loop_prefix. Qed.

End SeedingLoop.

(** *** Scalar functions *)


(** *** The [std::vector] overloads *)

Section Vector.
Variable f : Input -> DualNumber.
Variable u : list float.

Let evaluations (i : nat) : list DualNumber :=
  (fun k => f (seeded u k)) <$> seq 0 i.

Lemma evaluate_vector_loop_unfold log :
  evaluate_vector_loop f u log
  = for_range 0 (length u) (evaluate_vector_body f) (unseeded u, []) log.
Proof. unfold evaluate_vector_loop. now rewrite length_fmap. Qed.

Lemma evaluate_vector_loop_run log :
  evaluate_vector_loop f u log
  = Some ((unseeded u, evaluations (length u)), log ++ seeds u).
Proof.
  rewrite evaluate_vector_loop_unfold.
  apply seeding_loop_run
    with (f := f) (harvest := fun _ r evals => ret (evals ++ [r]))
         (acc := evaluations).
  - reflexivity.
  - intros i log' _. unfold evaluations. now rewrite seq_S, fmap_app.
Qed.

Lemma evaluate_vector_invariant :
  seeding_loop u (evaluate_vector_loop f u) (evaluate_vector_body f)
               (unseeded u, []).
Proof.
  split; [apply evaluate_vector_loop_unfold|].
  apply seeding_loop_invariant
    with (f := f) (harvest := fun _ r evals => ret (evals ++ [r])).
  - reflexivity.
  - now intros i r a log a' log' [= _ <-].
Qed.

Lemma evaluate_vector_run log :
  evaluate_vector f u log = Some (evaluations (length u), log ++ seeds u).
Proof.
  unfold evaluate_vector, bind. now rewrite evaluate_vector_loop_run.
Qed.

Lemma gradient_vector_run log :
  gradient_vector f u log = Some (partials f u, log ++ seeds u).
Proof.
  unfold gradient_vector, bind. rewrite evaluate_vector_run.
  unfold ret, partials, evaluations. now rewrite <- list_fmap_compose.
Qed.

End Vector.

Lemma length_partials (f : Input -> DualNumber) (u : list float) :
  length (partials f u) = length u.
Proof. unfold partials. now rewrite length_fmap, length_seq. Qed.

Lemma length_seeds (u : list float) : length (seeds u) = length u.
Proof. unfold seeds. now rewrite length_fmap, length_seq. Qed.

Lemma lookup_partials (f : Input -> DualNumber) (u : list float) (i : nat) :
  i < length u -> partials f u !! i = Some (dual (f (seeded u i))).
Proof.
  intros Hi. unfold partials. now rewrite list_lookup_fmap, lookup_seq_lt.
Qed.

Lemma lookup_seeds (u : list float) (i : nat) :
  i < length u -> seeds u !! i = Some (seeded u i).
Proof.
  intros Hi. unfold seeds. now rewrite list_lookup_fmap, lookup_seq_lt.
Qed.

(** Entry [j] of the input seeded at [i] is [DualNumber(u[j], 1.0)] if
    [j == i] and [DualNumber(u[j], 0.0)] otherwise. *)
Lemma lookup_seeded (u : list float) (i j : nat) :
  seeded u i !! j
  = (fun x => DualNumber2 x (if Nat.eqb j i then 1.0 else 0.0)%float)
      <$> u !! j.
Proof. unfold seeded. now rewrite list_lookup_imap. Qed.

(** C1.  [gradient(f, u)] returns, in input order, the [n] dual components
    of [f] on the inputs seeded at [0], ..., [n - 1], and invokes [f] exactly
    [n] times, the invocation of rank [i] on the input seeded at [i]. *)
Theorem gradient_vector_correct (f : Input -> DualNumber) (u : list float) :
  exists grad log,
    gradient_vector f u [] = Some (grad, log)
    /\ length grad = length u
    /\ (forall i, i < length u -> grad !! i = Some (dual (f (seeded u i))))
    /\ length log = length u
    /\ (forall i, i < length u -> log !! i = Some (seeded u i)).
Proof.
  exists (partials f u), (seeds u).
  split; [apply (gradient_vector_run f u [])|].
  split; [apply length_partials|].
  split; [apply lookup_partials|].
  split; [apply length_seeds|apply lookup_seeds].
Qed.

(** *** The Eigen overloads for scalar-valued functions *)

Lemma transform_into_full {A B : Type} (src : list A) (op : A -> B)
    (dst : list B) :
  length dst = length src -> transform_into src op dst = op <$> src.
Proof.
  intros H. unfold transform_into.
  rewrite drop_ge by lia. apply app_nil_r.
Qed.

Lemma unseeded_createVector (u : list float) :
  unseeded u = createVector (length u) (fun k => DualNumber2 (u !!! k) 0.0%float).
Proof.
  apply createVector_intro; [apply length_unseeded|].
  intros k x. unfold unseeded. rewrite list_lookup_fmap.
  destruct (u !! k) as [y|] eqn:E; cbn; [|discriminate].
  intros [= <-]. now rewrite (list_lookup_total_correct _ _ _ E).
Qed.

Section EigenGradient.
Variable uninit_vector : nat -> float.
Variable f : Input -> DualNumber.
Variable u : list float.

Let evaluations (i : nat) : list DualNumber :=
  createVector (length u)
    (fun k => if Nat.ltb k i then f (seeded u k) else DualNumber0).

Lemma evaluate_eigen_loop_unfold log :
  evaluate_eigen_loop f u log
  = for_range 0 (length u) (evaluate_eigen_body f)
              (unseeded u, createVector (length u) (fun _ => DualNumber0)) log.
Proof.
  unfold evaluate_eigen_loop.
  rewrite transform_into_full by now rewrite length_createVector.
  now rewrite length_fmap.
Qed.

Lemma evaluations_S i r :
  r = f (seeded u i) -> <[i := r]> (evaluations i) = evaluations (S i).
Proof.
  intros ->. unfold evaluations. rewrite insert_createVector.
  apply createVector_ext. intros k _.
  destruct (Nat.eqb_spec k i) as [->|Hne].
  - now rewrite (proj2 (Nat.ltb_lt i (S i))) by lia.
  - destruct (Nat.ltb_spec k i), (Nat.ltb_spec k (S i)); (reflexivity || lia).
Qed.

Lemma evaluations_full :
  evaluations (length u) = (fun k => f (seeded u k)) <$> seq 0 (length u).
Proof.
  unfold evaluations. apply createVector_ext. intros k Hk.
  now rewrite (proj2 (Nat.ltb_lt _ _) Hk).
Qed.

Lemma evaluate_eigen_loop_run log :
  evaluate_eigen_loop f u log
  = Some ((unseeded u, evaluations (length u)), log ++ seeds u).
Proof.
  rewrite evaluate_eigen_loop_unfold.
  apply seeding_loop_run
    with (f := f) (harvest := fun i r evals => ret (<[i := r]> evals))
         (acc := evaluations).
  - reflexivity.
  - intros i log' _. unfold ret. now rewrite evaluations_S.
Qed.

Lemma evaluate_eigen_invariant :
  seeding_loop u (evaluate_eigen_loop f u) (evaluate_eigen_body f)
    (unseeded u, createVector (length u) (fun _ => DualNumber0)).
Proof.
  split; [apply evaluate_eigen_loop_unfold|].
  apply seeding_loop_invariant
    with (f := f) (harvest := fun i r evals => ret (<[i := r]> evals)).
  - reflexivity.
  - now intros i r a log a' log' [= _ <-].
Qed.

Lemma gradient_eigen_run log :
  gradient_eigen uninit_vector f u log = Some (partials f u, log ++ seeds u).
Proof.
  unfold gradient_eigen, evaluate_eigen, bind.
  rewrite evaluate_eigen_loop_run. cbn [snd]. unfold ret.
  rewrite transform_into_full by now rewrite length_createVector.
  rewrite evaluations_full. unfold partials.
  now rewrite <- list_fmap_compose.
Qed.

End EigenGradient.

(** *** Matrices *)

Lemma list_as_createVector {T : Type} `{!Inhabited T} (l : list T) (n : nat) :
  length l = n -> l = createVector n (fun k => l !!! k).
Proof.
  intros H. apply createVector_intro; [exact H|].
  intros k x Hx. symmetry. now apply list_lookup_total_correct.
Qed.

Lemma createMatrix_createVector (r c : nat) (g : nat -> nat -> float) :
  createMatrix r c g
  = mkMatrix r c (createVector r (fun j => createVector c (g j))).
Proof. reflexivity. Qed.

Lemma createMatrix_ext (r c : nat) (g g' : nat -> nat -> float) :
  (forall j k, j < r -> k < c -> g j k = g' j k) ->
  createMatrix r c g = createMatrix r c g'.
Proof.
  intros H. rewrite !createMatrix_createVector. f_equal.
  apply createVector_ext. intros j Hj.
  apply createVector_ext. intros k Hk. now apply H.
Qed.

Lemma set_coeff_createMatrix (j i : nat) (x : float) (r c : nat)
    (g : nat -> nat -> float) :
  set_coeff j i x (createMatrix r c g)
  = createMatrix r c
      (fun j' k => if Nat.eqb j' j && Nat.eqb k i then x else g j' k).
Proof.
  rewrite !createMatrix_createVector. unfold set_coeff. cbn [rows cols coeff].
  f_equal. rewrite alter_createVector.
  apply createVector_ext. intros j' _.
  destruct (Nat.eqb j' j); [|reflexivity].
  now rewrite insert_createVector.
Qed.

Lemma set_row_createMatrix (i : nat) (row : list float) (r c : nat)
    (g : nat -> nat -> float) :
  length row = c ->
  set_row i row (createMatrix r c g)
  = createMatrix r c (fun j k => if Nat.eqb j i then row !!! k else g j k).
Proof.
  intros Hlen.
  rewrite !createMatrix_createVector. unfold set_row. cbn [rows cols coeff].
  f_equal. rewrite insert_createVector.
  apply createVector_ext. intros j _.
  destruct (Nat.eqb j i); [|reflexivity].
  now apply list_as_createVector.
Qed.

(** *** The Jacobian of a list of scalar-valued functions *)

Lemma length_concat_replicate {T : Type} (m : nat) (l : list T) :
  length (concat (replicate m l)) = m * length l.
Proof.
  induction m as [|m IH]; [reflexivity|].
  cbn. rewrite length_app, IH. reflexivity.
Qed.

Lemma concat_replicate_S {T : Type} (m : nat) (l : list T) :
  concat (replicate (S m) l) = concat (replicate m l) ++ l.
Proof.
  induction m as [|m IH]; [cbn; now rewrite app_nil_r|].
  change (replicate (S (S m)) l) with (l :: replicate (S m) l).
  cbn [concat]. rewrite IH at 1. cbn [replicate concat].
  now rewrite app_assoc.
Qed.

Section FunctionList.
Variable uninit_vector : nat -> float.
Variable uninit_matrix : nat -> nat -> float.
Variable u : list float.

#[local] Instance function_inhabited : Inhabited (Input -> DualNumber) :=
  populate (fun _ => DualNumber0).

Lemma jacobian_vector_run (f : list (Input -> DualNumber)) : forall log,
  jacobian_vector f u log
  = Some ((fun func => partials func u) <$> f,
          log ++ concat (replicate (length f) (seeds u))).
Proof.
  unfold jacobian_vector.
  induction f as [|func f' IH]; intros log.
  - cbn. now rewrite app_nil_r.
  - cbn [transform]. unfold bind at 1. rewrite gradient_vector_run.
    unfold bind at 1. rewrite IH. cbn. now rewrite app_assoc.
Qed.

Variable f : list (Input -> DualNumber).

Let jacobian (i : nat) : MatrixXd :=
  createMatrix (length f) (length u)
    (fun j k => if Nat.ltb j i then partials (f !!! j) u !!! k
                else uninit_matrix j k).

Let row_body (i : nat) (jacobian : MatrixXd) : Counted Input MatrixXd :=
  func <- at_index f i ;;
  g <- gradient_eigen uninit_vector func u ;;
  ret (set_row i g jacobian).

Lemma jacobian_eigen_row i log :
  i < length f ->
  row_body i (jacobian i) log = Some (jacobian (S i), log ++ seeds u).
Proof.
  intros Hi. unfold row_body, bind, at_index.
  destruct (lookup_lt_is_Some_2 f i Hi) as [func Hfunc].
  rewrite Hfunc. unfold ret at 1. rewrite gradient_eigen_run. unfold ret.
  do 2 f_equal. unfold jacobian.
  rewrite set_row_createMatrix by apply length_partials.
  apply createMatrix_ext. intros j k _ _.
  rewrite <- (list_lookup_total_correct _ _ _ Hfunc).
  destruct (Nat.eqb_spec j i) as [->|Hne].
  - now rewrite (proj2 (Nat.ltb_lt i (S i))) by lia.
  - destruct (Nat.ltb_spec j i), (Nat.ltb_spec j (S i)); (reflexivity || lia).
Qed.

Lemma jacobian_eigen_prefix i log :
  i <= length f ->
  for_range 0 i row_body (jacobian 0) log
  = Some (jacobian i, log ++ concat (replicate i (seeds u))).
Proof.
  induction i as [|i IH]; intros Hi.
  - cbn. now rewrite app_nil_r.
  - apply (for_range_step _ _ _ _ _ _ _ _ (IH ltac:(lia))).
    rewrite jacobian_eigen_row by lia.
    now rewrite concat_replicate_S, app_assoc.
Qed.

Lemma jacobian_full :
  jacobian (length f)
  = mkMatrix (length f) (length u) ((fun func => partials func u) <$> f).
Proof.
  unfold jacobian. rewrite createMatrix_createVector. f_equal.
  symmetry. apply createVector_intro; [now rewrite length_fmap|].
  intros j row. rewrite list_lookup_fmap.
  destruct (f !! j) as [func|] eqn:E; cbn; [|discriminate].
  intros [= <-]. rewrite (list_lookup_total_correct _ _ _ E).
  assert (j < length f) as Hj by now apply lookup_lt_Some in E.
  apply createVector_intro; [apply length_partials|].
  intros k x Hx.
  change (x = if Nat.ltb j (length f) then partials func u !!! k
              else uninit_matrix j k).
  rewrite (proj2 (Nat.ltb_lt _ _) Hj).
  symmetry. now apply list_lookup_total_correct.
Qed.

Lemma jacobian_eigen_run log :
  jacobian_eigen uninit_vector uninit_matrix f u log
  = Some (mkMatrix (length f) (length u) ((fun func => partials func u) <$> f),
          log ++ concat (replicate (length f) (seeds u))).
Proof.
  unfold jacobian_eigen. cbn [rows createMatrix].
  rewrite <- jacobian_full. now apply jacobian_eigen_prefix.
Qed.

End FunctionList.

(** C6.  Both overloads that take a list of [m] scalar-valued functions
    return the [m] gradients as rows, row [i] being what [gradient(f[i], u)]
    returns, so that entry [(i, j)] is the dual component of function [i] on
    the input seeded at [j]; the functions are invoked [m * n] times in
    all. *)
Theorem jacobian_of_functions (uninit_vector : nat -> float)
    (uninit_matrix : nat -> nat -> float)
    (f : list (Input -> DualNumber)) (u : list float) :
  exists jac log,
    jacobian_vector f u [] = Some (jac, log)
    /\ jacobian_eigen uninit_vector uninit_matrix f u []
       = Some (mkMatrix (length f) (length u) jac, log)
    /\ length jac = length f
    /\ length log = length f * length u
    /\ (forall i func, f !! i = Some func ->
          exists grad,
            jac !! i = Some grad
            /\ length grad = length u
            /\ fst <$> gradient_vector func u [] = Some grad
            /\ fst <$> gradient_eigen uninit_vector func u [] = Some grad
            /\ forall j, j < length u ->
                 grad !! j = Some (dual (func (seeded u j)))).
Proof.
  exists ((fun func => partials func u) <$> f),
         (concat (replicate (length f) (seeds u))).
  split; [apply (jacobian_vector_run u f [])|].
  split; [apply (jacobian_eigen_run uninit_vector uninit_matrix u f [])|].
  split; [now rewrite length_fmap|].
  split; [now rewrite length_concat_replicate, length_seeds|].
  intros i func Hfunc. exists (partials func u).
  split; [now rewrite list_lookup_fmap, Hfunc|].
  split; [apply length_partials|].
  split; [now rewrite gradient_vector_run|].
  split; [now rewrite gradient_eigen_run|].
  apply lookup_partials.
Qed.

(** *** The Jacobian of one vector-valued function *)

Lemma lift_input_run (u : list float) (n : nat) (log : list Input) :
  length u = n ->
  for_range 0 n
    (fun i dual_numbers =>
       ret (<[i := DualNumber2 (u !!! i) 0.0%float]> dual_numbers))
    (createVector n (fun _ => DualNumber0)) log
  = Some (unseeded u, log).
Proof.
  intros Hn.
  pose (lifted := fun i => createVector n
    (fun k => if Nat.ltb k i then DualNumber2 (u !!! k) 0.0%float
              else DualNumber0)).
  assert (forall i, i <= n ->
    for_range 0 i
      (fun i dual_numbers =>
         ret (<[i := DualNumber2 (u !!! i) 0.0%float]> dual_numbers))
      (createVector n (fun _ => DualNumber0)) log
    = Some (lifted i, log)) as Hprefix.
  { induction i as [|i IH]; intros Hi; [reflexivity|].
    apply (for_range_step _ _ _ _ _ _ _ _ (IH ltac:(lia))).
    unfold ret, lifted. rewrite insert_createVector. do 2 f_equal.
    apply createVector_ext. intros k _.
    destruct (Nat.eqb_spec k i) as [->|Hne].
    - now rewrite (proj2 (Nat.ltb_lt i (S i))) by lia.
    - destruct (Nat.ltb_spec k i), (Nat.ltb_spec k (S i));
        (reflexivity || lia). }
  rewrite Hprefix by lia. do 2 f_equal.
  rewrite unseeded_createVector, Hn. unfold lifted.
  apply createVector_ext. intros k Hk.
  now rewrite (proj2 (Nat.ltb_lt _ _) Hk).
Qed.

Lemma harvest_column_log (m i : nat) (result : list DualNumber)
    (jac : MatrixXd) (log : list Input) (jac' : MatrixXd) (log' : list Input) :
  harvest_column m i result jac log = Some (jac', log') -> log' = log.
Proof.
  unfold harvest_column. generalize 0 as first. revert jac.
  induction m as [|m IH]; intros jac first.
  - now intros [= _ <-].
  - rewrite for_range_S. unfold bind at 1, at_index.
    destruct (result !! first) as [x|]; [|discriminate].
    unfold ret at 1 2. apply IH.
Qed.

Section Column.
Variable m n i : nat.
Variable result : list DualNumber.
Variable g : nat -> nat -> float.
Hypothesis enough : m <= length result.

Let stored (j : nat) : MatrixXd :=
  createMatrix m n
    (fun j' k => if Nat.ltb j' j && Nat.eqb k i then dual (result !!! j')
                 else g j' k).

Lemma harvest_column_prefix j (log : list Input) :
  j <= m ->
  for_range 0 j
    (fun j jac => x <- at_index result j ;; ret (set_coeff j i (dual x) jac))
    (createMatrix m n g) log
  = Some (stored j, log).
Proof.
  induction j as [|j IH]; intros Hj.
  - reflexivity.
  - apply (for_range_step _ _ _ _ _ _ _ _ (IH ltac:(lia))).
    unfold bind, at_index.
    destruct (lookup_lt_is_Some_2 result j ltac:(lia)) as [x Hx].
    rewrite Hx. unfold ret. do 2 f_equal.
    unfold stored. rewrite set_coeff_createMatrix.
    apply createMatrix_ext. intros j' k _ _.
    destruct (Nat.eqb_spec j' j) as [->|Hne].
    + rewrite (list_lookup_total_correct _ _ _ Hx).
      rewrite (proj2 (Nat.ltb_lt j (S j))) by lia.
      rewrite Nat.ltb_irrefl. cbn [andb].
      now destruct (Nat.eqb k i).
    + cbn [andb].
      destruct (Nat.ltb_spec j' j), (Nat.ltb_spec j' (S j));
        (reflexivity || lia).
Qed.

Lemma harvest_column_run log :
  harvest_column m i result (createMatrix m n g) log
  = Some (createMatrix m n
            (fun j k => if Nat.eqb k i then dual (result !!! j) else g j k),
          log).
Proof.
  unfold harvest_column. rewrite harvest_column_prefix by lia.
  do 2 f_equal. apply createMatrix_ext. intros j k Hj _.
  now rewrite (proj2 (Nat.ltb_lt _ _) Hj).
Qed.

End Column.

Section VectorValued.
Variable uninit_matrix : nat -> nat -> float.
Variable m : nat.
Variable f : Input -> list DualNumber.
Variable u : list float.
Hypothesis arity : forall v, length (f v) = m.

Let jac (i : nat) : MatrixXd :=
  createMatrix m (length u)
    (fun j k => if Nat.ltb k i then dual (f (seeded u k) !!! j)
                else uninit_matrix j k).

Lemma jacobian_body_shape i dual_numbers a log :
  jacobian_body m f i (dual_numbers, a) log
  = match harvest_column m i (f (seed i dual_numbers)) a
            (log ++ [seed i dual_numbers]) with
    | Some (a', log') => Some ((unseed i (seed i dual_numbers), a'), log')
    | None => None
    end.
Proof. reflexivity. Qed.

Lemma jacobian_column i log :
  harvest_column m i (f (seeded u i)) (jac i) log = Some (jac (S i), log).
Proof.
  unfold jac. rewrite harvest_column_run by now rewrite arity.
  do 2 f_equal. apply createMatrix_ext. intros j k _ _.
  destruct (Nat.eqb_spec k i) as [->|Hne].
  - now rewrite (proj2 (Nat.ltb_lt i (S i))) by lia.
  - destruct (Nat.ltb_spec k i), (Nat.ltb_spec k (S i)); (reflexivity || lia).
Qed.

Lemma jac_full : jac (length u) = column_partials m f u.
Proof.
  unfold jac, column_partials. apply createMatrix_ext. intros j k _ Hk.
  now rewrite (proj2 (Nat.ltb_lt _ _) Hk).
Qed.

Lemma jacobian_dynamic_loop_unfold log :
  jacobian_dynamic_loop uninit_matrix m f u log
  = for_range 0 (length u) (jacobian_body m f)
      (unseeded u, createMatrix m (length u) uninit_matrix) log.
Proof.
  unfold jacobian_dynamic_loop, bind. now rewrite lift_input_run.
Qed.

Lemma jacobian_fixed_loop_unfold log :
  jacobian_fixed_loop uninit_matrix m (length u) f u log
  = for_range 0 (length u) (jacobian_body m f)
      (unseeded u, createMatrix m (length u) uninit_matrix) log.
Proof.
  unfold jacobian_fixed_loop, bind. now rewrite lift_input_run.
Qed.

Lemma jacobian_loop_run log :
  for_range 0 (length u) (jacobian_body m f)
    (unseeded u, createMatrix m (length u) uninit_matrix) log
  = Some ((unseeded u, column_partials m f u), log ++ seeds u).
Proof.
  rewrite <- jac_full.
  apply seeding_loop_run
    with (f := f) (harvest := harvest_column m) (acc := jac).
  - apply jacobian_body_shape.
  - intros i log' _. apply jacobian_column.
Qed.

Lemma jacobian_loop_invariant :
  seed_invariant u (jacobian_body m f)
    (unseeded u, createMatrix m (length u) uninit_matrix).
Proof.
  apply seeding_loop_invariant with (f := f) (harvest := harvest_column m).
  - apply jacobian_body_shape.
  - intros i r a log a' log'. apply harvest_column_log.
Qed.

Lemma jacobian_dynamic_run log :
  jacobian_dynamic uninit_matrix m f u log
  = Some (column_partials m f u, log ++ seeds u).
Proof.
  unfold jacobian_dynamic, bind.
  now rewrite jacobian_dynamic_loop_unfold, jacobian_loop_run.
Qed.

Lemma jacobian_fixed_run log :
  jacobian_fixed uninit_matrix m (length u) f u log
  = Some (column_partials m f u, log ++ seeds u).
Proof.
  unfold jacobian_fixed, bind.
  now rewrite jacobian_fixed_loop_unfold, jacobian_loop_run.
Qed.

Lemma entry_column_partials j i :
  j < m -> i < length u ->
  entry (column_partials m f u) j i = Some (dual (f (seeded u i) !!! j)).
Proof.
  intros Hj Hi. unfold entry, column_partials.
  rewrite createMatrix_createVector. cbn [coeff].
  rewrite lookup_createVector by done. now rewrite lookup_createVector.
Qed.

End VectorValued.

(** C2.  For a function [f] of [m] outputs, both overloads that take one
    vector-valued function invoke [f] exactly [n] times, whatever [m] is, the
    invocation of rank [i] on the input seeded at [i], and return the [m] by
    [n] matrix whose entry [(j, i)] is the dual component of output [j] of
    that invocation.  What the freshly allocated matrix held does not
    matter. *)
Theorem jacobian_of_vector_function (uninit_matrix : nat -> nat -> float)
    (m : nat) (f : Input -> list DualNumber) (u : list float) :
  (forall v, length (f v) = m) ->
  exists jac log,
    jacobian_dynamic uninit_matrix m f u [] = Some (jac, log)
    /\ jacobian_fixed uninit_matrix m (length u) f u [] = Some (jac, log)
    /\ rows jac = m
    /\ cols jac = length u
    /\ length log = length u
    /\ (forall i, i < length u -> log !! i = Some (seeded u i))
    /\ (forall j i, j < m -> i < length u ->
          entry jac j i = Some (dual (f (seeded u i) !!! j))).
Proof.
  intros arity. exists (column_partials m f u), (seeds u).
  split; [now apply (jacobian_dynamic_run uninit_matrix m f u arity [])|].
  split; [now apply (jacobian_fixed_run uninit_matrix m f u arity [])|].
  split; [reflexivity|]. split; [reflexivity|].
  split; [apply length_seeds|]. split; [apply lookup_seeds|].
  apply entry_column_partials.
Qed.

Lemma jacobian_of_vector_function_witness :
  (forall v, length (Examples.two_outputs v) = 2)
  /\ exists jac log,
       jacobian_dynamic (fun _ _ => 0%float) 2 Examples.two_outputs
         [3.0; 4.0]%float []
       = Some (jac, log)
       /\ length log = 2
       /\ entry jac 0 1 = Some 9.0%float.
Proof.
  split; [reflexivity|].
  destruct (jacobian_of_vector_function (fun _ _ => 0%float) 2
              Examples.two_outputs [3.0; 4.0]%float (fun _ => eq_refl))
    as (jac & log & Hrun & _ & _ & _ & Hlog & _ & Hentry).
  exists jac, log. split; [exact Hrun|]. split; [exact Hlog|].
  rewrite (Hentry 0 1) by (cbn; lia). reflexivity.
Defined.




(** Concrete runs: the derivative of [x * x * x] at [2.5], the gradient of
    [v0 * v0 * v1] at [(3, 4)], and the two Jacobians of
    [(v0 * v0 * v1, 5 * v0)] there. *)
Example derivative_cube :
  derivative Examples.cube 2.5%float []
  = Some (18.75%float, [DualNumber2 2.5 1.0]%float).
Proof. reflexivity. Qed.

Example gradient_square_times :
  fst <$> gradient_vector Examples.square_times [3.0; 4.0]%float []
  = Some [24.0; 9.0]%float.
Proof. reflexivity. Qed.

Example jacobian_two_outputs :
  fst <$> jacobian_dynamic (fun _ _ => nan) 2 Examples.two_outputs
            [3.0; 4.0]%float []
  = Some (mkMatrix 2 2 [[24.0; 9.0]; [5.0; 0.0]]%float)
  /\ fst <$> jacobian_vector [Examples.square_times; Examples.five_times]
               [3.0; 4.0]%float []
     = Some [[24.0; 9.0]; [5.0; 0.0]]%float.
Proof. split; reflexivity. Qed.

End ForwardFacts.

(** ** Failures are values *)

Module Totality.
Import IEEE Dual Forward.



End Totality.

(** ** Laws of the dual-number algebra *)

Module AlgebraLaws.
Import IEEE Dual.

#[local] Ltac store_simpl :=
  cbv [write_primal write_dual set_primal set_dual];
  repeat first [ rewrite DualFacts.update_eq
               | rewrite DualFacts.update_ne by congruence ];
  cbn [primal dual].

Lemma Prim2SF_neg_zero : Prim2SF neg_zero = S754_zero true.
Proof. reflexivity. Qed.

Lemma not_neg_zero (x : float) : x <> neg_zero -> Prim2SF x <> S754_zero true.
Proof.
  intros Hx H. apply Hx, Prim2SF_inj. now rewrite H, Prim2SF_neg_zero.
Qed.

(** X1.  [a += b] and [a -= b] leave in [a] what [a + b] and [a - b] return,
    also when [b] is [a] itself: each component of [*this] is read and
    written by one statement, unlike in [*=] and [/=]. *)
Theorem add_sub_assign_any_operand (this other : addr) (s : store) :
  op_add_assign this other s this = op_add (s this) (s other)
  /\ op_sub_assign this other s this = op_sub (s this) (s other).
Proof.
  unfold op_add_assign, op_sub_assign.
  destruct (decide (this = other)) as [<-|Hne]; now store_simpl.
Qed.

(** X2.  A compound assignment, by a dual number or by a scalar, writes
    [*this] and no other object, the operand included. *)
Theorem compound_assignments_frame (this other a : addr) (n : float)
    (s : store) :
  a <> this ->
  op_add_assign this other s a = s a
  /\ op_sub_assign this other s a = s a
  /\ op_mul_assign this other s a = s a
  /\ op_div_assign this other s a = s a
  /\ op_add_assign_scalar this n s a = s a
  /\ op_sub_assign_scalar this n s a = s a
  /\ op_mul_assign_scalar this n s a = s a
  /\ op_div_assign_scalar this n s a = s a.
Proof.
  intros H.
  unfold op_add_assign, op_sub_assign, op_mul_assign, op_div_assign,
    op_add_assign_scalar, op_sub_assign_scalar, op_mul_assign_scalar,
    op_div_assign_scalar.
  repeat split; now store_simpl.
Qed.

Lemma compound_assignments_frame_witness :
  let s : store := frame (mkDual 2.0 1.0) (mkDual 3.0 5.0) in
  by_ref <> by_value
  /\ op_mul_assign by_value by_ref s by_ref = mkDual 3.0 5.0.
Proof.
  split; [discriminate|].
  now rewrite (proj1 (proj2 (proj2
    (compound_assignments_frame by_value by_ref by_ref 0 _ ltac:(discriminate))))).
Defined.

(** X3.  Negation and conjugation are involutions, bit for bit, and they
    commute. *)
Theorem neg_conj_involutive (a : DualNumber) :
  op_neg (op_neg a) = a
  /\ Ops.conj (Ops.conj a) = a
  /\ Ops.conj (op_neg a) = op_neg (Ops.conj a).
Proof.
  destruct a as [p d]. unfold op_neg, Ops.conj. cbn [primal dual].
  now rewrite !IEEEFacts.opp_involutive.
Qed.

(** X4.  Subtraction is addition of the negation, bit for bit: [a - b] is
    [a + (-b)], and [n - a] is [(-a) + n]. *)
Theorem sub_is_add_neg (a b : DualNumber) (n : float) :
  op_sub a b = op_add a (op_neg b)
  /\ op_scalar_sub n a = op_add_scalar (op_neg a) n.
Proof.
  split.
  - change (mkDual (primal a - primal b) (dual a - dual b)
            = mkDual (primal a + - primal b) (dual a + - dual b)).
    now rewrite !IEEEFacts.sub_add_opp.
  - change (mkDual (n - primal a) (- dual a)
            = mkDual (- primal a + n) (- dual a)).
    now rewrite IEEEFacts.sub_add_opp, IEEEFacts.add_comm.
Qed.

(** X5.  Addition and multiplication of dual numbers are commutative, bit
    for bit. *)
Theorem add_mul_commutative (a b : DualNumber) :
  op_add a b = op_add b a /\ op_mul a b = op_mul b a.
Proof.
  split.
  - change (mkDual (primal a + primal b) (dual a + dual b)
            = mkDual (primal b + primal a) (dual b + dual a)).
    now rewrite (IEEEFacts.add_comm (primal a)), (IEEEFacts.add_comm (dual a)).
  - rewrite !DualFacts.op_mul_product_rule. unfold product_rule.
    rewrite (IEEEFacts.mul_comm (primal a) (primal b)).
    rewrite (IEEEFacts.mul_comm (primal a) (dual b)).
    rewrite (IEEEFacts.mul_comm (dual a) (primal b)).
    now rewrite IEEEFacts.add_comm.
Qed.

(** X6.  A scalar operand is a dual number with dual component [0.0]:
    [a - n] is [a - DualNumber(n)] on all operands, and [a + n] is
    [a + DualNumber(n)] unless the dual component of [a] is [-0.0], which the
    scalar operator leaves alone and the addition of [0.0] turns into [0.0];
    the two results still compare equal there. *)
Theorem scalar_is_constant (a : DualNumber) (n : float) :
  op_sub_scalar a n = op_sub a (DualNumber1 n)
  /\ (dual a <> neg_zero -> op_add_scalar a n = op_add a (DualNumber1 n))
  /\ (dual a = neg_zero ->
      primal (op_add_scalar a n) = primal (op_add a (DualNumber1 n))
      /\ dual (op_add_scalar a n) = neg_zero
      /\ dual (op_add a (DualNumber1 n)) = 0
      /\ close (op_add_scalar a n) (op_add a (DualNumber1 n))
         = (abs (primal a + n - (primal a + n)) <? epsilon)).
Proof.
  split; [|split].
  - change (mkDual (primal a - n) (dual a)
            = mkDual (primal a - n) (dual a - 0)).
    now rewrite IEEEFacts.sub_zero_r.
  - intros H%not_neg_zero.
    change (mkDual (primal a + n) (dual a)
            = mkDual (primal a + n) (dual a + 0)).
    now rewrite IEEEFacts.add_zero_r.
  - intros H. split; [reflexivity|]. split; [exact H|].
    change (dual (op_add a (DualNumber1 n))) with (dual a + 0).
    split; [now rewrite H|].
    unfold close.
    change (dual (op_add_scalar a n)) with (dual a).
    change (dual (op_add a (DualNumber1 n))) with (dual a + 0).
    change (primal (op_add_scalar a n)) with (primal a + n).
    change (primal (op_add a (DualNumber1 n))) with (primal a + n).
    rewrite H. apply andb_true_r.
Qed.

Lemma scalar_is_constant_witness :
  dual (mkDual 2.0 1.0) <> neg_zero
  /\ op_add_scalar (mkDual 2.0 1.0) 3.0
     = op_add (mkDual 2.0 1.0) (DualNumber1 3.0).
Proof.
  assert (dual (mkDual 2.0 1.0) <> neg_zero) as H.
  { intros E. apply (f_equal Prim2SF) in E. discriminate E. }
  split; [exact H|].
  exact (proj1 (proj2 (scalar_is_constant (mkDual 2.0 1.0) 3.0)) H).
Defined.

(** X7.  [operator==] and [operator!=] do not depend on the order of their
    operands. *)
Theorem op_eq_symmetric (this other : addr) (s : store) :
  op_eq this other s = op_eq other this s
  /\ op_ne this other s = op_ne other this s.
Proof.
  unfold op_ne, op_eq.
  rewrite (Nat.eqb_sym this other).
  rewrite (IEEEFacts.abs_sub_sym (primal (s this))).
  now rewrite (IEEEFacts.abs_sub_sym (dual (s this))).
Qed.

(** X8.  A dual number with a NaN or infinite component is unequal to every
    other object, an exact copy of itself included: [==] is false and [!=]
    is true. *)
Theorem op_eq_nan_or_inf (this other : addr) (s : store) :
  this <> other ->
  nan_or_inf (primal (s this)) || nan_or_inf (dual (s this))
  || nan_or_inf (primal (s other)) || nan_or_inf (dual (s other)) = true ->
  op_eq this other s = false /\ op_ne this other s = true.
Proof.
  intros Hne H. unfold op_ne, op_eq.
  apply Nat.eqb_neq in Hne as ->. cbn [orb].
  assert (((abs (primal (s this) - primal (s other)) <? epsilon)
           && (abs (dual (s this) - dual (s other)) <? epsilon)) = false)
    as ->; [|split; reflexivity].
  apply andb_false_iff.
  apply orb_true_iff in H as [H|H]; [|right; now apply IEEEFacts.far_apart_r].
  apply orb_true_iff in H as [H|H]; [|left; now apply IEEEFacts.far_apart_r].
  apply orb_true_iff in H as [H|H]; [left|right];
    now apply IEEEFacts.far_apart_l.
Qed.

Lemma op_eq_nan_or_inf_witness :
  let s : store := frame (mkDual infinity 0.0) (mkDual infinity 0.0) in
  by_value <> by_ref /\ op_eq by_value by_ref s = false.
Proof.
  split; [discriminate|].
  apply (op_eq_nan_or_inf by_value by_ref _); [discriminate|reflexivity].
Defined.

(** X9.  A NaN dual component of either operand is a NaN dual component of
    the result of every arithmetic operator: a lost derivative is never
    replaced by a number. *)
Theorem nan_dual_through_arithmetic (a b : DualNumber) (n : float) :
  is_nan (dual a) = true ->
  is_nan (dual (op_neg a)) = true
  /\ is_nan (dual (op_add a b)) = true /\ is_nan (dual (op_add b a)) = true
  /\ is_nan (dual (op_sub a b)) = true /\ is_nan (dual (op_sub b a)) = true
  /\ is_nan (dual (op_mul a b)) = true /\ is_nan (dual (op_mul b a)) = true
  /\ is_nan (dual (op_div a b)) = true /\ is_nan (dual (op_div b a)) = true
  /\ is_nan (dual (op_add_scalar a n)) = true
  /\ is_nan (dual (op_sub_scalar a n)) = true
  /\ is_nan (dual (op_scalar_sub n a)) = true
  /\ is_nan (dual (op_mul_scalar a n)) = true
  /\ is_nan (dual (op_div_scalar a n)) = true.
Proof.
  intros H.
  rewrite !DualFacts.op_mul_product_rule, !DualFacts.op_div_quotient_rule.
  repeat split; cbn;
    auto using IEEEFacts.opp_nan, IEEEFacts.add_nan_l, IEEEFacts.add_nan_r,
      IEEEFacts.sub_nan_l, IEEEFacts.sub_nan_r, IEEEFacts.mul_nan_l,
      IEEEFacts.mul_nan_r, IEEEFacts.nan_over.
Qed.

Lemma nan_dual_through_arithmetic_witness :
  is_nan (dual (mkDual 1.0 nan)) = true
  /\ is_nan (dual (op_mul (mkDual 2.0 3.0) (mkDual 1.0 nan))) = true.
Proof.
  split; [reflexivity|].
  apply (nan_dual_through_arithmetic (mkDual 1.0 nan) (mkDual 2.0 3.0) 0).
  reflexivity.
Defined.

(** X20.  On another object as operand, [a *= b] and [a /= b] leave in [a]
    what [a * b] and [a / b] return and leave [b] as it was; the compound
    assignments by a scalar leave what the operators with a scalar return. *)
Theorem compound_assignments_agree (this other : addr) (n : float)
    (s : store) :
  this <> other ->
  op_mul_assign this other s this = op_mul (s this) (s other)
  /\ op_div_assign this other s this = op_div (s this) (s other)
  /\ op_mul_assign this other s other = s other
  /\ op_div_assign this other s other = s other
  /\ op_add_assign_scalar this n s this = op_add_scalar (s this) n
  /\ op_sub_assign_scalar this n s this = op_sub_scalar (s this) n
  /\ op_mul_assign_scalar this n s this = op_mul_scalar (s this) n
  /\ op_div_assign_scalar this n s this = op_div_scalar (s this) n.
Proof.
  intros H.
  rewrite DualFacts.op_mul_product_rule, DualFacts.op_div_quotient_rule.
  unfold op_mul_assign, op_div_assign, op_add_assign_scalar,
    op_sub_assign_scalar, op_mul_assign_scalar, op_div_assign_scalar.
  repeat split; now store_simpl.
Qed.

Lemma compound_assignments_agree_witness :
  let s : store := frame (mkDual 2.0 1.0) (mkDual 3.0 5.0) in
  by_value <> by_ref
  /\ op_mul_assign by_value by_ref s by_value = mkDual 6.0 13.0.
Proof.
  split; [discriminate|].
  now rewrite (proj1
    (compound_assignments_agree by_value by_ref 0 _ ltac:(discriminate))).
Defined.

(** X21.  An exact copy of a dual number compares equal to it exactly when
    both components are finite. *)
Theorem op_eq_copy (this other : addr) (s : store) :
  this <> other -> s other = s this ->
  op_eq this other s
  = is_finite (primal (s this)) && is_finite (dual (s this)).
Proof.
  intros Hne Hcopy. unfold op_eq. rewrite Hcopy.
  apply Nat.eqb_neq in Hne as ->. cbn [orb].
  assert (forall x, (abs (x - x) <? epsilon) = is_finite x) as Hself.
  { intros x. destruct (is_finite x) eqn:E.
    - now apply IEEEFacts.sub_self_finite.
    - apply IEEEFacts.far_apart_l. unfold is_finite in E.
      now apply negb_false_iff in E. }
  now rewrite !Hself.
Qed.

Lemma op_eq_copy_witness :
  let s : store := frame (mkDual 1.5 nan) (mkDual 1.5 nan) in
  by_value <> by_ref /\ s by_ref = s by_value
  /\ op_eq by_value by_ref s = false.
Proof.
  intros s. split; [discriminate|]. split; [reflexivity|].
  rewrite (op_eq_copy by_value by_ref s); [reflexivity|discriminate|reflexivity].
Defined.

End AlgebraLaws.

(** ** Laws of the elementary functions *)

Module ElementaryLaws.
Import IEEE Dual.

(** X10.  [abs] is even, bit for bit in both components; its primal
    component is never below zero, and [abs] leaves it alone when applied
    again. *)
Theorem abs_even (a : DualNumber) :
  Ops.abs (op_neg a) = Ops.abs a
  /\ (primal (Ops.abs a) <? 0) = false
  /\ primal (Ops.abs (Ops.abs a)) = primal (Ops.abs a).
Proof.
  split; [|split].
  - unfold Ops.abs, op_neg. cbn [primal dual].
    now rewrite IEEEFacts.abs_opp, IEEEFacts.mul_opp_opp.
  - apply IEEEFacts.abs_not_negative.
  - apply IEEEFacts.abs_idempotent.
Qed.

Create HintDb nan.
#[local] Hint Resolve IEEEFacts.opp_nan IEEEFacts.abs_nan IEEEFacts.sqrt_nan
  IEEEFacts.add_nan_l IEEEFacts.add_nan_r IEEEFacts.sub_nan_l
  IEEEFacts.sub_nan_r IEEEFacts.mul_nan_l IEEEFacts.mul_nan_r
  IEEEFacts.nan_over IEEEFacts.div_nan_r : nan.

(** X11.  Whatever the C library returns, a NaN dual component of the
    argument is a NaN dual component of the result of every elementary
    function, of both operands of the power with a dual exponent included. *)
Theorem nan_dual_through_elementary (m : Ops.Libm) (a b : DualNumber)
    (e : float) :
  is_nan (dual a) = true ->
  is_nan (dual (Ops.abs a)) = true
  /\ is_nan (dual (Ops.conj a)) = true
  /\ is_nan (dual (Ops.abs2 a)) = true
  /\ is_nan (dual (Ops.norm a)) = true
  /\ is_nan (dual (Ops.inverse m a)) = true
  /\ is_nan (dual (Ops.pow m a e)) = true
  /\ is_nan (dual (Ops.pow_dual m a b)) = true
  /\ is_nan (dual (Ops.pow_dual m b a)) = true
  /\ is_nan (dual (Ops.sqrt m a)) = true
  /\ is_nan (dual (Ops.exp m a)) = true
  /\ is_nan (dual (Ops.exp2 m a)) = true
  /\ is_nan (dual (Ops.log m a)) = true
  /\ is_nan (dual (Ops.log2 m a)) = true
  /\ is_nan (dual (Ops.log10 m a)) = true
  /\ is_nan (dual (Ops.log_base m a e)) = true
  /\ is_nan (dual (Ops.sin m a)) = true
  /\ is_nan (dual (Ops.cos m a)) = true
  /\ is_nan (dual (Ops.tan m a)) = true
  /\ is_nan (dual (Ops.asin m a)) = true
  /\ is_nan (dual (Ops.acos m a)) = true
  /\ is_nan (dual (Ops.atan m a)) = true
  /\ is_nan (dual (Ops.sinh m a)) = true
  /\ is_nan (dual (Ops.cosh m a)) = true
  /\ is_nan (dual (Ops.tanh m a)) = true
  /\ is_nan (dual (Ops.asinh m a)) = true
  /\ is_nan (dual (Ops.acosh m a)) = true
  /\ is_nan (dual (Ops.atanh m a)) = true.
Proof.
  intros H.
  unfold Ops.abs2, Ops.norm.
  rewrite !DualFacts.op_mul_product_rule.
  repeat split; cbn; auto 6 with nan.
Qed.

Lemma nan_dual_through_elementary_witness :
  is_nan (dual (mkDual 1.0 nan)) = true
  /\ is_nan (dual (Ops.sin Examples.libm (mkDual 1.0 nan))) = true.
Proof.
  split; [reflexivity|].
  apply (nan_dual_through_elementary Examples.libm (mkDual 1.0 nan)
           (mkDual 1.0 nan) 0).
  reflexivity.
Defined.

(** X12.  Whatever the C library returns, a NaN primal component of the
    argument is a NaN dual component of the result of every function whose
    derivative rule divides by an expression in the primal component, and of
    the power with a dual exponent for a NaN base. *)
Theorem nan_primal_reaches_dual (m : Ops.Libm) (a b : DualNumber)
    (base : float) :
  is_nan (primal a) = true ->
  is_nan (dual (Ops.abs a)) = true
  /\ is_nan (dual (Ops.pow_dual m a b)) = true
  /\ is_nan (dual (Ops.log m a)) = true
  /\ is_nan (dual (Ops.log2 m a)) = true
  /\ is_nan (dual (Ops.log10 m a)) = true
  /\ is_nan (dual (Ops.log_base m a base)) = true
  /\ is_nan (dual (Ops.asin m a)) = true
  /\ is_nan (dual (Ops.acos m a)) = true
  /\ is_nan (dual (Ops.atan m a)) = true
  /\ is_nan (dual (Ops.asinh m a)) = true
  /\ is_nan (dual (Ops.acosh m a)) = true
  /\ is_nan (dual (Ops.atanh m a)) = true
  /\ is_nan (dual (op_div b a)) = true.
Proof.
  intros H. rewrite DualFacts.op_div_quotient_rule.
  repeat split; cbn; auto 7 with nan.
Qed.

Lemma nan_primal_reaches_dual_witness :
  is_nan (primal (mkDual nan 1.0)) = true
  /\ is_nan (dual (Ops.atan Examples.libm (mkDual nan 1.0))) = true.
Proof.
  split; [reflexivity|].
  apply (nan_primal_reaches_dual Examples.libm (mkDual nan 1.0)
           (mkDual 1.0 1.0) 2).
  reflexivity.
Defined.

End ElementaryLaws.

(** ** Laws of the seeding engine *)

Module EngineLaws.
Import Dual Forward.
Local Open Scope nat_scope.

(** *** Helpers *)

Lemma for_range_app {X St : Type} (body : nat -> St -> Counted X St)
    (a b : nat) : forall first s log,
  for_range first (a + b) body s log
  = match for_range first a body s log with
    | Some (s', log') => for_range (first + a) b body s' log'
    | None => None
    end.
Proof.
  induction a as [|a IH]; intros first s log.
  - cbn. now rewrite Nat.add_0_r.
  - cbn [Nat.add]. rewrite !ForwardFacts.for_range_S.
    destruct (body first s log) as [[s' log']|]; [|reflexivity].
    rewrite IH. now rewrite Nat.add_succ_comm.
Qed.

Lemma primal_seeded (u : list float) (i : nat) : primal <$> seeded u i = u.
Proof.
  apply list_eq. intros j.
  rewrite list_lookup_fmap, ForwardFacts.lookup_seeded.
  now destruct (u !! j).
Qed.

Lemma length_seeded (u : list float) (i : nat) :
  length (seeded u i) = length u.
Proof. now rewrite <- (primal_seeded u i) at 2; rewrite length_fmap. Qed.

Lemma elem_of_seeds (u : list float) (v : Input) :
  v ∈ seeds u -> exists i, i < length u /\ v = seeded u i.
Proof.
  unfold seeds. intros (i & -> & Hi)%list_elem_of_fmap.
  exists i. split; [|reflexivity].
  apply elem_of_seq in Hi. lia.
Qed.

Lemma elem_of_concat_replicate {T : Type} (m : nat) (l : list T) (x : T) :
  x ∈ concat (replicate m l) -> x ∈ l.
Proof.
  induction m as [|m IH]; cbn.
  - intros H. now apply elem_of_nil in H.
  - intros [H|H]%elem_of_app; auto.
Qed.

(** A result with fewer than [FunctionSize] outputs stops the loop over
    [j]. *)
Lemma harvest_column_short (i : nat) (result : list DualNumber)
    (log : list Input) (count : nat) : forall first jac,
  first <= length result -> length result < first + count ->
  for_range first count
    (fun j jac => x <- at_index result j ;; ret (set_coeff j i (dual x) jac))
    jac log
  = None.
Proof.
  induction count as [|count IH]; intros first jac Hle Hlt; [lia|].
  rewrite ForwardFacts.for_range_S. unfold bind at 1, at_index.
  destruct (result !! first) as [x|] eqn:E; [|reflexivity].
  unfold ret at 1 2. apply lookup_lt_Some in E. apply IH; lia.
Qed.

Section AtLeast.
Variable uninit_matrix : nat -> nat -> float.
Variable m : nat.
Variable f : Input -> list DualNumber.
Variable u : list float.

Let jac (i : nat) : MatrixXd :=
  createMatrix m (length u)
    (fun j k => if Nat.ltb k i then dual (f (seeded u k) !!! j)
                else uninit_matrix j k).

Lemma jacobian_column_at_least i log :
  m <= length (f (seeded u i)) ->
  harvest_column m i (f (seeded u i)) (jac i) log = Some (jac (S i), log).
Proof.
  intros Hm. unfold jac. rewrite ForwardFacts.harvest_column_run by done.
  do 2 f_equal. apply ForwardFacts.createMatrix_ext. intros j k _ _.
  destruct (Nat.eqb_spec k i) as [->|Hne].
  - now rewrite (proj2 (Nat.ltb_lt i (S i))) by lia.
  - destruct (Nat.ltb_spec k i), (Nat.ltb_spec k (S i)); (reflexivity || lia).
Qed.

Lemma jacobian_loop_at_least log :
  (forall i, i < length u -> m <= length (f (seeded u i))) ->
  for_range 0 (length u) (jacobian_body m f)
    (unseeded u, createMatrix m (length u) uninit_matrix) log
  = Some ((unseeded u, column_partials m f u), log ++ seeds u).
Proof.
  intros enough.
  replace (column_partials m f u) with (jac (length u)).
  - apply ForwardFacts.seeding_loop_run
      with (f := f) (harvest := harvest_column m) (acc := jac).
    + apply ForwardFacts.jacobian_body_shape.
    + intros i log' Hi. apply jacobian_column_at_least. now apply enough.
  - unfold jac, column_partials.
    apply ForwardFacts.createMatrix_ext. intros j k _ Hk.
    now rewrite (proj2 (Nat.ltb_lt _ _) Hk).
Qed.

Lemma jacobian_loop_short i log :
  i < length u -> length (f (seeded u i)) < m ->
  for_range 0 (length u) (jacobian_body m f)
    (unseeded u, createMatrix m (length u) uninit_matrix) log
  = None.
Proof.
  intros Hi Hshort.
  replace (length u) with (i + S (length u - S i)) by lia.
  rewrite for_range_app.
  destruct (for_range 0 i _ _ log) as [[[dual_numbers a] log']|] eqn:E;
    [|reflexivity].
  apply ForwardFacts.seeding_loop_reach
    with (f := f) (harvest := harvest_column m) in E as [-> _].
  - rewrite ForwardFacts.for_range_S, ForwardFacts.jacobian_body_shape.
    rewrite ForwardFacts.seed_unseeded. unfold harvest_column.
    now rewrite (harvest_column_short i (f (seeded u i)) _ m 0) by lia.
  - apply ForwardFacts.jacobian_body_shape.
  - intros k r a0 l a' l'. apply ForwardFacts.harvest_column_log.
Qed.

Lemma jacobian_dynamic_at_least log :
  (forall i, i < length u -> m <= length (f (seeded u i))) ->
  jacobian_dynamic uninit_matrix m f u log
  = Some (column_partials m f u, log ++ seeds u).
Proof.
  intros enough. unfold jacobian_dynamic, bind.
  rewrite ForwardFacts.jacobian_dynamic_loop_unfold.
  now rewrite jacobian_loop_at_least.
Qed.

Lemma jacobian_fixed_at_least log :
  (forall i, i < length u -> m <= length (f (seeded u i))) ->
  jacobian_fixed uninit_matrix m (length u) f u log
  = Some (column_partials m f u, log ++ seeds u).
Proof.
  intros enough. unfold jacobian_fixed, bind.
  rewrite ForwardFacts.jacobian_fixed_loop_unfold.
  now rewrite jacobian_loop_at_least.
Qed.

Lemma jacobian_short i log :
  i < length u -> length (f (seeded u i)) < m ->
  jacobian_dynamic uninit_matrix m f u log = None
  /\ jacobian_fixed uninit_matrix m (length u) f u log = None.
Proof.
  intros Hi Hshort. unfold jacobian_dynamic, jacobian_fixed, bind.
  rewrite ForwardFacts.jacobian_dynamic_loop_unfold.
  rewrite ForwardFacts.jacobian_fixed_loop_unfold.
  now rewrite (jacobian_loop_short i log Hi Hshort).
Qed.

End AtLeast.

Lemma jacobian_some_inv (uninit_matrix : nat -> nat -> float) (m : nat)
    (f : Input -> list DualNumber) (u : list float) (log : list Input) :
  is_Some (jacobian_dynamic uninit_matrix m f u log)
  \/ is_Some (jacobian_fixed uninit_matrix m (length u) f u log) ->
  forall i, i < length u -> m <= length (f (seeded u i)).
Proof.
  intros H i Hi.
  destruct (le_lt_dec m (length (f (seeded u i)))) as [Hle|Hlt]; [exact Hle|].
  destruct (jacobian_short uninit_matrix m f u i log Hi Hlt) as [H1 H2].
  rewrite H1, H2 in H. destruct H as [[x H]|[x H]]; discriminate.
Qed.

Lemma Forall_seeds (u : list float) :
  Forall (fun v => primal <$> v = u) (seeds u).
Proof.
  apply Forall_forall. intros v (i & _ & ->)%elem_of_seeds.
  apply primal_seeded.
Qed.

Lemma concat_replicate_nil {T : Type} (m : nat) :
  concat (replicate m (@nil T)) = [].
Proof. induction m as [|m IH]; [reflexivity|exact IH]. Qed.

Lemma zip_with_fmap_seq {A B C : Type} (h : A -> B -> C) (a : nat -> A)
    (b : nat -> B) (l : list nat) :
  zip_with h (a <$> l) (b <$> l) = (fun i => h (a i) (b i)) <$> l.
Proof. induction l as [|i l IH]; [reflexivity|]. cbn. now rewrite IH. Qed.

#[local] Instance scalar_function_inhabited : Inhabited (Input -> DualNumber) :=
  populate (fun _ => DualNumber0).

(** The functions of a list, as one function that returns their values. *)
Lemma column_partials_stacked (f : list (Input -> DualNumber))
    (u : list float) :
  column_partials (length f) (fun v => (fun func => func v) <$> f) u
  = mkMatrix (length f) (length u) ((fun func => partials func u) <$> f).
Proof.
  unfold column_partials. rewrite ForwardFacts.createMatrix_createVector.
  f_equal. symmetry.
  apply ForwardFacts.createVector_intro; [now rewrite length_fmap|].
  intros j row. rewrite list_lookup_fmap.
  destruct (f !! j) as [func|] eqn:E; cbn; [|discriminate].
  intros [= <-]. unfold partials, createVector.
  apply list_fmap_ext. intros _ i _.
  now rewrite (list_lookup_total_correct _ j (func (seeded u i)))
    by now rewrite list_lookup_fmap, E.
Qed.

(** *** Properties *)

(** X13.  The Eigen overloads of [evaluate] and [gradient] return what the
    [std::vector] overloads return, with the same invocations, whatever the
    freshly allocated vector of doubles held: the [n] dual components of [f]
    on the inputs seeded at [0], ..., [n - 1]. *)
Theorem gradient_eigen_correct (uninit_vector : nat -> float)
    (f : Input -> DualNumber) (u : list float) :
  evaluate_eigen f u [] = evaluate_vector f u []
  /\ gradient_eigen uninit_vector f u [] = gradient_vector f u []
  /\ exists grad log,
       gradient_eigen uninit_vector f u [] = Some (grad, log)
       /\ length grad = length u
       /\ (forall i, i < length u ->
             grad !! i = Some (dual (f (seeded u i))))
       /\ length log = length u
       /\ (forall i, i < length u -> log !! i = Some (seeded u i)).
Proof.
  split; [|split].
  - unfold evaluate_eigen, bind.
    rewrite ForwardFacts.evaluate_eigen_loop_run. cbn [snd].
    now rewrite ForwardFacts.evaluations_full, ForwardFacts.evaluate_vector_run.
  - now rewrite ForwardFacts.gradient_eigen_run,
      ForwardFacts.gradient_vector_run.
  - exists (partials f u), (seeds u).
    split; [apply (ForwardFacts.gradient_eigen_run uninit_vector f u [])|].
    split; [apply ForwardFacts.length_partials|].
    split; [apply ForwardFacts.lookup_partials|].
    split; [apply ForwardFacts.length_seeds|apply ForwardFacts.lookup_seeds].
Qed.

(** X14.  The two Jacobian paths agree: the Jacobian of the list of [m]
    scalar functions, by [m * n] invocations, is the Jacobian of the one
    function that returns their [m] values, by [n] invocations. *)
Theorem jacobian_paths_agree (uninit_matrix : nat -> nat -> float)
    (f : list (Input -> DualNumber)) (u : list float) :
  exists jac log_of_list log_of_one,
    jacobian_vector f u [] = Some (jac, log_of_list)
    /\ jacobian_dynamic uninit_matrix (length f)
         (fun v => (fun func => func v) <$> f) u []
       = Some (mkMatrix (length f) (length u) jac, log_of_one)
    /\ length log_of_list = length f * length u
    /\ length log_of_one = length u.
Proof.
  exists ((fun func => partials func u) <$> f),
         (concat (replicate (length f) (seeds u))), (seeds u).
  split; [apply (ForwardFacts.jacobian_vector_run u f [])|].
  split.
  - rewrite jacobian_dynamic_at_least
      by (intros i _; now rewrite length_fmap).
    now rewrite column_partials_stacked.
  - split; [|apply ForwardFacts.length_seeds].
    now rewrite ForwardFacts.length_concat_replicate, ForwardFacts.length_seeds.
Qed.

(** X15.  The overloads for one vector-valued function return a matrix
    exactly when [f] returns at least [FunctionSize] outputs on each of the
    [n] seeded inputs; then the outputs beyond [FunctionSize] are ignored. *)
Theorem jacobian_returns_iff (uninit_matrix : nat -> nat -> float) (m : nat)
    (f : Input -> list DualNumber) (u : list float) :
  (is_Some (jacobian_dynamic uninit_matrix m f u [])
   <-> forall i, i < length u -> m <= length (f (seeded u i)))
  /\ (is_Some (jacobian_fixed uninit_matrix m (length u) f u [])
      <-> forall i, i < length u -> m <= length (f (seeded u i)))
  /\ ((forall i, i < length u -> m <= length (f (seeded u i))) ->
      jacobian_dynamic uninit_matrix m f u []
      = jacobian_dynamic uninit_matrix m (fun v => take m (f v)) u []
      /\ jacobian_fixed uninit_matrix m (length u) f u []
         = jacobian_dynamic uninit_matrix m f u []).
Proof.
  split; [|split].
  - split.
    + intros H. apply (jacobian_some_inv uninit_matrix m f u []). now left.
    + intros H. now rewrite jacobian_dynamic_at_least.
  - split.
    + intros H. apply (jacobian_some_inv uninit_matrix m f u []). now right.
    + intros H. now rewrite jacobian_fixed_at_least.
  - intros H.
    rewrite jacobian_fixed_at_least, !jacobian_dynamic_at_least; try done.
    + split; [|reflexivity]. do 2 f_equal. unfold column_partials.
      apply ForwardFacts.createMatrix_ext. intros j k Hj _.
      now rewrite lookup_total_take_lt.
    + intros i Hi. rewrite length_take. specialize (H i Hi). lia.
Qed.

Lemma jacobian_returns_iff_witness :
  (forall i, i < length [3.0; 4.0]%float ->
     1 <= length (Examples.two_outputs (seeded [3.0; 4.0]%float i)))
  /\ is_Some (jacobian_dynamic (fun _ _ => 0%float) 1 Examples.two_outputs
                [3.0; 4.0]%float []).
Proof.
  assert (forall i, i < length [3.0; 4.0]%float ->
            1 <= length (Examples.two_outputs (seeded [3.0; 4.0]%float i)))
    as H by (intros i _; cbn; lia).
  split; [exact H|].
  exact (proj2 (proj1 (jacobian_returns_iff (fun _ _ => 0%float) 1
                         Examples.two_outputs [3.0; 4.0]%float)) H).
Defined.

(** X16.  With an empty input vector no function is invoked: the gradient is
    empty and the Jacobians have no column, also for a function that would
    return the wrong number of outputs.  With an empty list of functions the
    Jacobian has no row and nothing is invoked. *)
Theorem empty_inputs (uninit_vector : nat -> float)
    (uninit_matrix : nat -> nat -> float) (f : Input -> DualNumber)
    (fs : list (Input -> DualNumber)) (m : nat)
    (g : Input -> list DualNumber) (u : list float) :
  gradient_vector f [] [] = Some ([], [])
  /\ gradient_eigen uninit_vector f [] [] = Some ([], [])
  /\ jacobian_vector fs [] [] = Some ((fun _ => []) <$> fs, [])
  /\ jacobian_dynamic uninit_matrix m g [] []
     = Some (mkMatrix m 0 ((fun _ => []) <$> seq 0 m), [])
  /\ jacobian_fixed uninit_matrix m 0 g [] []
     = Some (mkMatrix m 0 ((fun _ => []) <$> seq 0 m), [])
  /\ jacobian_vector [] u [] = Some ([], [])
  /\ jacobian_eigen uninit_vector uninit_matrix [] u []
     = Some (mkMatrix 0 (length u) [], []).
Proof.
  repeat split.
  rewrite ForwardFacts.jacobian_vector_run. cbn [app].
  change (seeds []) with (@nil Input).
  now rewrite concat_replicate_nil.
Qed.

(** X17.  The gradient of a constant is zero in every entry; the gradient of
    coordinate [k] of the input is the unit vector of index [k]; the Jacobian
    of the identity is the identity matrix. *)
Theorem unit_gradients (uninit_matrix : nat -> nat -> float) (c : float)
    (k : nat) (u : list float) :
  fst <$> gradient_vector (fun _ => DualNumber1 c) u []
  = Some ((fun _ => 0%float) <$> seq 0 (length u))
  /\ (k < length u ->
      fst <$> gradient_vector (fun v => v !!! k) u []
      = Some ((fun i => if Nat.eqb i k then 1.0%float else 0.0%float)
                <$> seq 0 (length u)))
  /\ fst <$> jacobian_dynamic uninit_matrix (length u) (fun v => v) u []
     = Some (createMatrix (length u) (length u)
               (fun j i => if Nat.eqb j i then 1.0%float else 0.0%float)).
Proof.
  split; [|split].
  - now rewrite ForwardFacts.gradient_vector_run.
  - intros Hk. rewrite ForwardFacts.gradient_vector_run. cbn [fmap option_fmap
      option_map fst]. f_equal. unfold partials.
    apply list_fmap_ext. intros _ i _.
    destruct (lookup_lt_is_Some_2 u k Hk) as [x Hx].
    rewrite (list_lookup_total_correct (seeded u i) k
               (DualNumber2 x (if Nat.eqb k i then 1.0 else 0.0)%float))
      by now rewrite ForwardFacts.lookup_seeded, Hx.
    now rewrite Nat.eqb_sym.
  - rewrite jacobian_dynamic_at_least
      by (intros i _; now rewrite length_seeded).
    cbn [fmap option_fmap option_map fst]. f_equal. unfold column_partials.
    apply ForwardFacts.createMatrix_ext. intros j i Hj _.
    destruct (lookup_lt_is_Some_2 u j Hj) as [x Hx].
    now rewrite (list_lookup_total_correct (seeded u i) j
                   (DualNumber2 x (if Nat.eqb j i then 1.0 else 0.0)%float))
      by now rewrite ForwardFacts.lookup_seeded, Hx.
Qed.

Lemma unit_gradients_witness :
  1 < length [3.0; 4.0; 5.0]%float
  /\ fst <$> gradient_vector (fun v => v !!! 1) [3.0; 4.0; 5.0]%float []
     = Some [0.0; 1.0; 0.0]%float.
Proof.
  split; [cbn; lia|].
  exact (proj1 (proj2 (unit_gradients (fun _ _ => 0%float) 0%float 1
                         [3.0; 4.0; 5.0]%float)) ltac:(cbn; lia)).
Defined.

(** X18.  The gradient is linear, bit for bit: the gradient of [f + g] is
    the entrywise sum of the gradients of [f] and [g], that of [f - g] their
    entrywise difference, that of [c * f] the gradient of [f] scaled by [c],
    and that of [-f] its entrywise opposite. *)
Theorem gradient_linear (f g : Input -> DualNumber) (c : float)
    (u : list float) :
  exists grad_f grad_g,
    fst <$> gradient_vector f u [] = Some grad_f
    /\ fst <$> gradient_vector g u [] = Some grad_g
    /\ fst <$> gradient_vector (fun v => op_add (f v) (g v)) u []
       = Some (zip_with PrimFloat.add grad_f grad_g)
    /\ fst <$> gradient_vector (fun v => op_sub (f v) (g v)) u []
       = Some (zip_with PrimFloat.sub grad_f grad_g)
    /\ fst <$> gradient_vector (fun v => op_scalar_mul c (f v)) u []
       = Some (PrimFloat.mul c <$> grad_f)
    /\ fst <$> gradient_vector (fun v => op_neg (f v)) u []
       = Some (PrimFloat.opp <$> grad_f).
Proof.
  exists (partials f u), (partials g u).
  rewrite !ForwardFacts.gradient_vector_run.
  cbn [fmap option_fmap option_map fst]. unfold partials.
  rewrite !zip_with_fmap_seq, <- !list_fmap_compose.
  repeat split.
Qed.

(** X19.  Seeding never moves the point of evaluation: every vector a
    function is invoked on, by a gradient or by a Jacobian, has the primal
    components [u]. *)
Theorem invocations_at_input (uninit_vector : nat -> float)
    (uninit_matrix : nat -> nat -> float) (f : Input -> DualNumber)
    (fs : list (Input -> DualNumber)) (m : nat)
    (g : Input -> list DualNumber) (u : list float) :
  (exists grad log,
     gradient_vector f u [] = Some (grad, log)
     /\ gradient_eigen uninit_vector f u [] = Some (grad, log)
     /\ Forall (fun v => primal <$> v = u) log)
  /\ (exists jac log,
        jacobian_vector fs u [] = Some (jac, log)
        /\ Forall (fun v => primal <$> v = u) log)
  /\ (forall jac log,
        jacobian_dynamic uninit_matrix m g u [] = Some (jac, log)
        \/ jacobian_fixed uninit_matrix m (length u) g u [] = Some (jac, log)
        -> Forall (fun v => primal <$> v = u) log).
Proof.
  split; [|split].
  - exists (partials f u), (seeds u).
    split; [apply (ForwardFacts.gradient_vector_run f u [])|].
    split; [apply (ForwardFacts.gradient_eigen_run uninit_vector f u [])|].
    apply Forall_seeds.
  - eexists _, _. split; [apply (ForwardFacts.jacobian_vector_run u fs [])|].
    apply Forall_forall. intros v Hv. cbn [app] in Hv.
    apply elem_of_concat_replicate, elem_of_seeds in Hv as (i & _ & ->).
    apply primal_seeded.
  - intros jac log H.
    assert (forall i, i < length u -> m <= length (g (seeded u i))) as enough.
    { apply (jacobian_some_inv uninit_matrix m g u []).
      destruct H as [H|H]; rewrite H; eauto. }
    rewrite jacobian_fixed_at_least, jacobian_dynamic_at_least in H by done.
    destruct H as [H|H]; injection H as _ <-; apply Forall_seeds.
Qed.

(** X22.  The derivative is the gradient in dimension one: the gradient of
    [f] of the only coordinate, at the vector of the single entry [u], has
    the single entry [derivative(f, u)], for one invocation each. *)
Theorem derivative_is_gradient (f : DualNumber -> DualNumber) (u : float) :
  exists d x,
    derivative f u [] = Some (d, [x])
    /\ gradient_vector (fun v => f (v !!! 0)) [u] [] = Some ([d], [[x]]).
Proof.
  exists (dual (f (DualNumber2 u 1.0%float))), (DualNumber2 u 1.0%float).
  split; [reflexivity|].
  now rewrite ForwardFacts.gradient_vector_run.
Qed.

(** X23.  The rules of differentiation, as [derivative] delivers them: with
    [f(u)], [f'(u)], [g(u)] and [g'(u)] the components of what [evaluate]
    returns for [f] and [g], the derivative of [f + g] is [f'(u) + g'(u)],
    that of [f * g] is [f(u) * g'(u) + f'(u) * g(u)], that of [f / g] is
    [(f'(u) * g(u) - f(u) * g'(u)) / (g(u) * g(u))], and the derivatives of
    [exp(f)], [log(f)], [sin(f)] and [cos(f)] are [f'(u)] times, or over,
    what the C library returns at [f(u)]. *)
Theorem derivative_rules (m : Ops.Libm) (f g : DualNumber -> DualNumber)
    (u : float) :
  exists fu f'u gu g'u,
    fst <$> evaluate f u [] = Some (mkDual fu f'u)
    /\ fst <$> evaluate g u [] = Some (mkDual gu g'u)
    /\ fst <$> derivative (fun x => op_add (f x) (g x)) u []
       = Some (f'u + g'u)%float
    /\ fst <$> derivative (fun x => op_mul (f x) (g x)) u []
       = Some (fu * g'u + f'u * gu)%float
    /\ fst <$> derivative (fun x => op_div (f x) (g x)) u []
       = Some ((f'u * gu - fu * g'u) / (gu * gu))%float
    /\ fst <$> derivative (fun x => Ops.exp m (f x)) u []
       = Some (f'u * Ops.std_exp m fu)%float
    /\ fst <$> derivative (fun x => Ops.log m (f x)) u []
       = Some (f'u / fu)%float
    /\ fst <$> derivative (fun x => Ops.sin m (f x)) u []
       = Some (Ops.std_cos m fu * f'u)%float
    /\ fst <$> derivative (fun x => Ops.cos m (f x)) u []
       = Some (- Ops.std_sin m fu * f'u)%float.
Proof.
  exists (primal (f (DualNumber2 u 1.0%float))),
         (dual (f (DualNumber2 u 1.0%float))),
         (primal (g (DualNumber2 u 1.0%float))),
         (dual (g (DualNumber2 u 1.0%float))).
  cbn. destruct (f _), (g _). repeat split.
Qed.

End EngineLaws.
